(** * Interview server: transcript stitching and connection handling

    A shallow embedding of [speech_to_text.py] (word-overlap merger and
    chunked transcription pipeline) and of [server.py] (the WebSocket
    connection loop and its per-message handlers), followed by the
    properties established about them.

    Exceptions are values: a computation returns [inl e] when it raises
    [e] and [inr a] when it returns [a]. Calls to [logging] are left out;
    they neither raise nor touch the state. The audio file helpers
    [merge_chunks] and [convert_to_wav] of [speech_to_text.py] only move
    bytes between files and are not used by the pipeline. *)

From Stdlib Require Import String Ascii NArith ZArith Bool Arith Lia List.
From Stdlib.Strings Require Import Byte.
Import ListNotations.

Set Implicit Arguments.
Set Warnings "-register-all,-abstract-large-number".

(** ** Python values *)

Module Py.

(** A Python [str] is a sequence of Unicode code points. *)
Definition str := list N.

(** Literals are written as Rocq strings, one code point per character. *)
Definition lit (s : string) : str :=
  map (fun a => N_of_ascii a) (list_ascii_of_string s).

Fixpoint eqb (a b : str) : bool :=
  match a, b with
  | [], [] => true
  | x :: a', y :: b' => N.eqb x y && eqb a' b'
  | _, _ => false
  end.

(** [bool(s)] for a string: non-empty. *)
Definition nonempty (s : str) : bool :=
  match s with [] => false | _ :: _ => true end.

(** [str.isspace] on one code point: the whitespace set used by
    [str.split()] and [str.strip()] when called without argument. *)
Definition isspace (c : N) : bool :=
  (((9 <=? c) && (c <=? 13)) || ((28 <=? c) && (c <=? 32))
   || (c =? 133) || (c =? 160) || (c =? 5760)
   || ((8192 <=? c) && (c <=? 8202))
   || (c =? 8232) || (c =? 8233) || (c =? 8239) || (c =? 8287)
   || (c =? 12288))%N.

(** [s.split()]: maximal runs of non-whitespace; [w] is the word being
    read. *)
Fixpoint split_from (w : str) (s : str) : list str :=
  match s with
  | [] => match w with [] => [] | _ :: _ => [w] end
  | c :: s' =>
      if isspace c
      then match w with
           | [] => split_from [] s'
           | _ :: _ => w :: split_from [] s'
           end
      else split_from (w ++ [c]) s'
  end.

Definition split (s : str) : list str := split_from [] s.

(** [sep.join(parts)] *)
Fixpoint join (sep : str) (parts : list str) : str :=
  match parts with
  | [] => []
  | [x] => x
  | x :: rest => x ++ sep ++ join sep rest
  end.

Fixpoint lstrip (s : str) : str :=
  match s with
  | [] => []
  | c :: s' => if isspace c then lstrip s' else s
  end.

Definition rstrip (s : str) : str := rev (lstrip (rev s)).

(** [s.strip()] *)
Definition strip (s : str) : str := rstrip (lstrip s).

(** [s.startswith(p)] *)
Fixpoint startswith (s p : str) {struct p} : bool :=
  match p, s with
  | [], _ => true
  | _ :: _, [] => false
  | c :: p', d :: s' => N.eqb c d && startswith s' p'
  end.

(** Exceptions: the class, and the text [str(e)] gives. Only the classes
    the two modules distinguish are kept apart. [BaseExceptionOnly]
    stands for the classes that are not subclasses of [Exception]
    (KeyboardInterrupt, SystemExit, asyncio.CancelledError). *)
Inductive exn_class :=
| ValidationError
| WebSocketDisconnect
| RuntimeError
| AttributeError
| IndexError
| OtherException
| BaseExceptionOnly.

Record exn := Exn { exn_cls : exn_class; exn_str : str }.

(** [isinstance(e, Exception)] *)
Definition is_Exception (e : exn) : bool :=
  match exn_cls e with BaseExceptionOnly => false | _ => true end.

Definition is_ValidationError (e : exn) : bool :=
  match exn_cls e with ValidationError => true | _ => false end.

Definition is_WebSocketDisconnect (e : exn) : bool :=
  match exn_cls e with WebSocketDisconnect => true | _ => false end.

(** JSON-shaped values: what [receive_json] delivers, what [send_json]
    takes and what the evaluators return. A dict keeps its items in
    insertion order. *)
Inductive val :=
| VNone
| VBool (b : bool)
| VInt (z : Z)
| VStr (s : str)
| VList (l : list val)
| VDict (items : list (str * val)).

(** [bool(v)] *)
Definition truthy (v : val) : bool :=
  match v with
  | VNone => false
  | VBool b => b
  | VInt z => negb (Z.eqb z 0)
  | VStr s => nonempty s
  | VList l => match l with [] => false | _ :: _ => true end
  | VDict d => match d with [] => false | _ :: _ => true end
  end.

Fixpoint lookup (k : str) (items : list (str * val)) : option val :=
  match items with
  | [] => None
  | (k', v) :: rest => if eqb k' k then Some v else lookup k rest
  end.

(** [type(v).__name__] *)
Definition type_name (v : val) : str :=
  match v with
  | VNone => lit "NoneType"
  | VBool _ => lit "bool"
  | VInt _ => lit "int"
  | VStr _ => lit "str"
  | VList _ => lit "list"
  | VDict _ => lit "dict"
  end.

(** The error of reading attribute [name] of a value that lacks it. *)
Definition no_attribute (type_of_value : str) (name : string) : exn :=
  Exn AttributeError
      (lit "'" ++ type_of_value ++ lit "' object has no attribute '"
       ++ lit name ++ lit "'").

(** [v.get(k)]: defined on dicts, with [None] for a missing key; any
    other value has no attribute [get]. *)
Definition get (v : val) (k : str) : exn + val :=
  match v with
  | VDict items =>
      inr (match lookup k items with Some x => x | None => VNone end)
  | _ => inl (no_attribute (type_name v) "get")
  end.

End Py.

Notation "'py' s" := (Py.lit s%string) (at level 9, s at level 0, only parsing).

(** ** speech_to_text.py *)

Module SpeechToText.
Import Py.

(** The scan [for i in range(len(last_word_prev))] with its [break]:
    the first index whose suffix of the last word starts the first word
    ([None] is the sentinel -1). *)
Fixpoint scan_overlap (first_word_curr last_word_prev : str)
         (range : list nat) : option nat :=
  match range with
  | [] => None
  | i :: rest =>
      if startswith first_word_curr (skipn i last_word_prev)
      then Some i
      else scan_overlap first_word_curr last_word_prev rest
  end.

Definition merge_with_overlap (previous current : str) : str :=
  let previous_words := split previous in
  let current_words := split current in
  match previous_words, current_words with
  | [], _ | _, [] => previous ++ py " " ++ current
  | _ :: _, _ :: _ =>
      let last_word_prev := last previous_words [] in
      let first_word_curr := hd [] current_words in
      if eqb last_word_prev first_word_curr
      then previous ++ py " " ++ join (py " ") (tl current_words)
      else
        match scan_overlap first_word_curr last_word_prev
                (seq 0 (length last_word_prev)) with
        | Some overlap_index =>
            let merged_word :=
              firstn overlap_index last_word_prev ++ first_word_curr in
            join (py " ")
                 (removelast previous_words ++ [merged_word]
                  ++ tl current_words)
        | None => previous ++ py " " ++ current
        end
  end.

(** *** The chunked pipeline *)

Definition bytes := list byte.

(** [len(audio_content)] *)
Definition len (b : bytes) : N := N.of_nat (length b).

(** [b[lo:hi]] for offsets within the buffer *)
Definition slice (b : bytes) (lo hi : N) : bytes :=
  firstn (N.to_nat (hi - lo)) (skipn (N.to_nat lo) b).

(** The response of the speech service: results, each with its ranked
    alternatives. *)
Record SpeechRecognitionAlternative := { transcript : str }.
Record SpeechRecognitionResult :=
  { alternatives : list SpeechRecognitionAlternative }.
Record RecognizeResponse := { results : list SpeechRecognitionResult }.

(** What the pipeline reaches outside the program: the file system and
    the speech service. [recognize k chunk] is the service's answer to
    the call number [k] (from 0) of one pipeline run, made with the fixed
    LINEAR16 / 16 kHz / en-US configuration. *)
Class SpeechClient := {
  read_file : str -> exn + bytes;
  recognize : nat -> bytes -> exn + RecognizeResponse
}.

(** [int(0.5 * 16000 * 2)] *)
Definition overlap_duration : N := 16000.
(** [int(5 * 16000 * 2)] *)
Definition chunk_duration : N := 160000.

(** [[result.alternatives[0].transcript for result in response.results]] *)
Fixpoint top_transcripts (rs : list SpeechRecognitionResult)
  : exn + list str :=
  match rs with
  | [] => inr []
  | result :: rest =>
      match alternatives result with
      | [] => inl (Exn IndexError (py "list index out of range"))
      | best :: _ =>
          match top_transcripts rest with
          | inl e => inl e
          | inr ts => inr (transcript best :: ts)
          end
      end
  end.

Section Pipeline.
Context {client : SpeechClient}.

(** One window: the call to the service and the text of its response. *)
Definition chunk_transcription_of (k : nat) (chunk : bytes) : exn + str :=
  match recognize k chunk with
  | inl e => inl e
  | inr response =>
      match top_transcripts (results response) with
      | inl e => inl e
      | inr ts => inr (join (py " ") ts)
      end
  end.

(** The [while start < len(audio_content)] loop. [calls] records the
    chunks handed to the service so far, in order. The loop advances
    [start] by [chunk_duration] at every turn, so [fuel] bounds the
    number of turns; [None] means the bound was too small. *)
Fixpoint transcribe_loop (fuel : nat) (audio_content : bytes) (start : N)
         (previous_transcription transcription : str) (calls : list bytes)
  : option ((exn + str) * list bytes) :=
  if (start <? len audio_content)%N then
    match fuel with
    | O => None
    | S fuel' =>
        let end_ := N.min (start + chunk_duration + overlap_duration)
                          (len audio_content) in
        let chunk := slice audio_content start end_ in
        match chunk_transcription_of (length calls) chunk with
        | inl e => Some (inl e, calls ++ [chunk])
        | inr chunk_transcription =>
            let transcription' :=
              if nonempty previous_transcription
              then transcription
                   ++ merge_with_overlap previous_transcription
                                         chunk_transcription
              else transcription ++ chunk_transcription in
            transcribe_loop fuel' audio_content (start + chunk_duration)
                            chunk_transcription transcription'
                            (calls ++ [chunk])
        end
    end
  else Some (inr (strip transcription), calls).

(** [except Exception as e: raise RuntimeError(f"... {e}")] *)
Definition reraise (e : exn) : exn :=
  if is_Exception e
  then Exn RuntimeError (py "Error during audio transcription: " ++ exn_str e)
  else e.

(** The outcome of [transcribe_audio_with_overlap wav_path], with the
    chunks it submitted to the service. The loop is given one turn per
    byte of the buffer, which is never too few (see
    [transcribe_audio_with_overlap_windows] below), so the last branch is
    never taken. *)
Definition transcribe_audio_with_overlap (wav_path : str)
  : (exn + str) * list bytes :=
  match read_file wav_path with
  | inl e => (inl (reraise e), [])
  | inr audio_content =>
      match transcribe_loop (length audio_content) audio_content 0
                            [] [] [] with
      | Some (inr text, calls) => (inr text, calls)
      | Some (inl e, calls) => (inl (reraise e), calls)
      | None => (inl (Exn RuntimeError (py "unreachable")), [])
      end
  end.

(** The windows of a buffer, by index: window [k] starts at
    [k * chunk_duration] and is [chunk_duration + overlap_duration] bytes
    long, cut at the end of the buffer. *)
Definition window (audio_content : bytes) (k : nat) : bytes :=
  let cursor := (N.of_nat k * chunk_duration)%N in
  slice audio_content cursor
        (N.min (cursor + chunk_duration + overlap_duration)
               (len audio_content)).

Definition window_count (audio_content : bytes) : nat :=
  N.to_nat ((len audio_content + chunk_duration - 1) / chunk_duration).

Definition windows (audio_content : bytes) : list bytes :=
  map (window audio_content) (seq 0 (window_count audio_content)).

(** The windows still due when [k] calls have been made. *)
Definition remaining (audio_content : bytes) (k : nat) : list bytes :=
  map (window audio_content) (seq k (window_count audio_content - k)).

(** The raw fragments of chunks submitted as calls [k], [k+1], ... *)
Fixpoint fragments_from (k : nat) (chunks : list bytes) : exn + list str :=
  match chunks with
  | [] => inr []
  | chunk :: rest =>
      match chunk_transcription_of k chunk with
      | inl e => inl e
      | inr f =>
          match fragments_from (S k) rest with
          | inl e => inl e
          | inr fs => inr (f :: fs)
          end
      end
  end.

Definition fragments (audio_content : bytes) : exn + list str :=
  fragments_from 0 (windows audio_content).

(** The chunks actually submitted when [chunks] are due as calls [k],
    [k+1], ...: all of them up to and including the first that fails. *)
Fixpoint submitted_from (k : nat) (chunks : list bytes) : list bytes :=
  match chunks with
  | [] => []
  | chunk :: rest =>
      chunk :: match chunk_transcription_of k chunk with
               | inl _ => []
               | inr _ => submitted_from (S k) rest
               end
  end.

End Pipeline.

(** The accumulation over the raw fragments, as the loop builds it:
    after a non-empty fragment the next one is appended merged with it,
    after an empty one (and at the start) it is appended as it is. *)
Fixpoint stitch_after (previous : str) (fs : list str) : str :=
  match fs with
  | [] => []
  | f :: rest =>
      (if nonempty previous then merge_with_overlap previous f else f)
      ++ stitch_after f rest
  end.

Definition stitch (fs : list str) : str := stitch_after [] fs.

(** The accumulation with every later fragment merged with the one
    before it, whatever that one is. *)
Fixpoint merged_pairs (previous : str) (fs : list str) : str :=
  match fs with
  | [] => []
  | f :: rest => merge_with_overlap previous f ++ merged_pairs f rest
  end.

Definition stitch_all_merged (fs : list str) : str :=
  match fs with
  | [] => []
  | f1 :: rest => f1 ++ merged_pairs f1 rest
  end.

(** A word, as [split] produces them: not empty and free of whitespace. *)
Definition is_word (w : str) : Prop :=
  w <> [] /\ Forall (fun c => isspace c = false) w.

(** A stretch of whitespace. *)
Definition is_blank (s : str) : Prop := Forall (fun c => isspace c = true) s.

End SpeechToText.

(** ** server.py *)

Module Server.
Import Py SpeechToText.

(** [EventData]: the validated inbound message. *)
Record EventData := {
  type : str;
  code : option str;
  ques : option str;
  audio_data : option str
}.

(** What the server reaches outside this module. [WS] is the state of
    the accepted WebSocket connection: receiving and sending act on it
    and may raise. The document extractors are handed the connection too.
    [validate] is [EventData( **data)]; the evaluators are synchronous
    calls. *)
Class Collaborators := {
  WS : Type;
  LLM : Type;
  receive_json : WS -> (exn + val) * WS;
  send_json : val -> WS -> (exn + unit) * WS;
  validate : val -> exn + EventData;
  get_cv : val -> WS -> (exn + str) * WS;
  get_job_description : val -> WS -> (exn + str) * WS;
  make_llm : LLM;
  evaluate_code : LLM -> option str -> option str -> exn + val;
  analyze_results : val -> exn + val;
  summary_results : val -> exn + val;
  random_choice : list str -> str;
  speech_client : SpeechClient
}.

Section Handlers.
Context {ext : Collaborators}.

#[local] Existing Instance speech_client.

(** The attributes of an [InterviewBot] the server reads and writes. An
    [asyncio.Event] is its flag. In a condition an instance counts as
    true, as objects do by default, so [if state.interview_bot] tests the
    slot for [None]. *)
Record InterviewBot := {
  llm : LLM;
  current_answer : option str;
  answer_event : bool;
  coding_event : bool;
  stop_interview : bool
}.

(** Modelled from the spec: the class [InterviewBot] of app/interviewer.py
    is not part of these sources; a handle is constructed with fresh
    signals, all unset, and an empty pending-answer slot. *)
Definition new_InterviewBot (cv_text job_description : str) (results : val)
  : InterviewBot :=
  {| llm := make_llm; current_answer := None; answer_event := false;
     coding_event := false; stop_interview := false |}.

Record InterviewState := {
  cv_text : str;
  job_description : str;
  interview_bot : option InterviewBot;
  results : val;
  state_stop_interview : bool
}.

(** [InterviewState()] *)
Definition new_InterviewState : InterviewState :=
  {| cv_text := [];
     job_description := [];
     interview_bot := None;
     results := VDict [(py "INTRODUCTION", VDict []); (py "PROJECT", VDict []);
                       (py "CODING", VDict []); (py "TECHNICAL", VDict []);
                       (py "OUTRO", VDict [])];
     state_stop_interview := false |}.

(** One connection: its session state, its socket, and the number of
    interview tasks the connection handler launched with
    [asyncio.create_task]. The launched task can run only while the
    connection handler is suspended. It is given its turn where the
    handler sleeps to let it react ([await_sleep] below); receiving and
    sending on the socket are taken to complete without the task
    running. *)
Record World := {
  state : InterviewState;
  websocket : WS;
  tasks_created : nat
}.

Definition set_state (st : InterviewState) (w : World) : World :=
  {| state := st; websocket := websocket w; tasks_created := tasks_created w |}.

Definition set_websocket (ws : WS) (w : World) : World :=
  {| state := state w; websocket := ws; tasks_created := tasks_created w |}.

Definition set_cv_text (v : str) (st : InterviewState) : InterviewState :=
  {| cv_text := v; job_description := job_description st;
     interview_bot := interview_bot st; results := results st;
     state_stop_interview := state_stop_interview st |}.

Definition set_job_description (v : str) (st : InterviewState)
  : InterviewState :=
  {| cv_text := cv_text st; job_description := v;
     interview_bot := interview_bot st; results := results st;
     state_stop_interview := state_stop_interview st |}.

Definition set_interview_bot (v : option InterviewBot) (st : InterviewState)
  : InterviewState :=
  {| cv_text := cv_text st; job_description := job_description st;
     interview_bot := v; results := results st;
     state_stop_interview := state_stop_interview st |}.

Definition set_current_answer (v : option str) (b : InterviewBot)
  : InterviewBot :=
  {| llm := llm b; current_answer := v; answer_event := answer_event b;
     coding_event := coding_event b; stop_interview := stop_interview b |}.

Definition set_answer_event (v : bool) (b : InterviewBot) : InterviewBot :=
  {| llm := llm b; current_answer := current_answer b; answer_event := v;
     coding_event := coding_event b; stop_interview := stop_interview b |}.

Definition set_coding_event (v : bool) (b : InterviewBot) : InterviewBot :=
  {| llm := llm b; current_answer := current_answer b;
     answer_event := answer_event b; coding_event := v;
     stop_interview := stop_interview b |}.

Definition set_stop_interview (v : bool) (b : InterviewBot) : InterviewBot :=
  {| llm := llm b; current_answer := current_answer b;
     answer_event := answer_event b; coding_event := coding_event b;
     stop_interview := v |}.

(** *** Computations of the connection handler: state and exceptions *)

Definition M (A : Type) : Type := World -> (exn + A) * World.

Definition ret {A} (a : A) : M A := fun w => (inr a, w).

Definition bind {A B} (c : M A) (k : A -> M B) : M B :=
  fun w =>
    match c w with
    | (inl e, w') => (inl e, w')
    | (inr a, w') => k a w'
    end.

(** [try: body  except <class> as e: handler e] *)
Definition try_except {A} (body : M A) (caught : exn -> bool)
           (handler : exn -> M A) : M A :=
  fun w =>
    match body w with
    | (inl e, w') => if caught e then handler e w' else (inl e, w')
    | (inr a, w') => (inr a, w')
    end.

(** A synchronous call to a collaborator. *)
Definition call {A} (r : exn + A) : M A := fun w => (r, w).

(** An awaited operation on the connection. *)
Definition on_websocket {A} (op : WS -> (exn + A) * WS) : M A :=
  fun w => let (r, ws') := op (websocket w) in (r, set_websocket ws' w).

Definition get_state : M InterviewState := fun w => (inr (state w), w).

Definition update_state (f : InterviewState -> InterviewState) : M unit :=
  fun w => (inr tt, set_state (f (state w)) w).

(** A write to [attribute] of [state.interview_bot]; on [None] the
    attribute access raises. *)
Definition update_bot (attribute : string)
           (f : InterviewBot -> InterviewBot) : M unit :=
  fun w =>
    match interview_bot (state w) with
    | Some b => (inr tt, set_state (set_interview_bot (Some (f b)) (state w)) w)
    | None => (inl (no_attribute (py "NoneType") attribute), w)
    end.

(** *** The launched interview task *)

(** Where [InterviewBot.conduct_interview] stands when it stops running:
    suspended again, with the handle as it left it, returned, or ended by
    an exception. *)
Inductive progress :=
| Suspended (bot : InterviewBot)
| Returned
| Raised (e : exn).

(** [conduct_interview] belongs to app/interviewer.py, which is not part
    of these sources. It is taken as what the coroutine does, given the
    handle, the results mapping it shares with the session and the
    socket, from the moment it is resumed until it suspends again or
    ends. *)
Class Interviewer := {
  conduct_interview : InterviewBot -> val -> WS -> progress * val * WS
}.

Context {interviewer : Interviewer}.

Definition set_results (v : val) (st : InterviewState) : InterviewState :=
  {| cv_text := cv_text st; job_description := job_description st;
     interview_bot := interview_bot st; results := v;
     state_stop_interview := state_stop_interview st |}.

(** [handle_interview], the task [handle_start_interview] launches, for
    one stretch of running: while the interview goes on the handle stays;
    when [conduct_interview] returns or raises (the exception is logged),
    the [finally] clause clears [state.interview_bot]. Without a handle
    no interview is running. *)
Definition handle_interview : M unit :=
  fun w =>
    match interview_bot (state w) with
    | Some bot =>
        let '(p, results', ws') :=
          conduct_interview bot (results (state w)) (websocket w) in
        let bot' := match p with
                    | Suspended b => Some b
                    | Returned | Raised _ => None
                    end in
        (inr tt,
         {| state := set_interview_bot bot' (set_results results' (state w));
            websocket := ws';
            tasks_created := tasks_created w |})
    | None => (inr tt, w)
    end.

(** [await asyncio.sleep(0.1)]: the connection handler is suspended and
    the launched task runs. *)
Definition await_sleep : M unit := handle_interview.

(** [asyncio.create_task(handle_interview())] *)
Definition create_task : M unit :=
  fun w => (inr tt, {| state := state w; websocket := websocket w;
                       tasks_created := S (tasks_created w) |}).

Notation "x <- c ;; k" := (bind c (fun x => k))
  (at level 61, c at next level, right associativity).
Notation "c ;; k" := (bind c (fun _ => k))
  (at level 61, right associativity).

Definition await_receive_json : M val := on_websocket receive_json.
Definition await_send_json (message : val) : M unit :=
  on_websocket (send_json message).

(** *** Event-specific handlers *)

Definition handle_upload_cv : M unit :=
  data <- await_receive_json ;;
  text <- on_websocket (get_cv data) ;;
  update_state (set_cv_text text) ;;
  await_send_json
    (VDict [(py "type", VStr (py "cv_uploaded"));
            (py "message", VStr (py "CV data received"));
            (py "cv_text", VStr text)]).

Definition handle_analyze_jd : M unit :=
  data <- await_receive_json ;;
  text <- on_websocket (get_job_description data) ;;
  update_state (set_job_description text) ;;
  await_send_json
    (VDict [(py "type", VStr (py "jd_analyzed"));
            (py "message", VStr (py "Received JD Successfully"));
            (py "job_description", VStr text)]).

Definition handle_start_interview : M unit :=
  st <- get_state ;;
  match interview_bot st with
  | None =>
      update_state
        (set_interview_bot
           (Some (new_InterviewBot (cv_text st) (job_description st)
                                   (results st)))) ;;
      create_task ;;
      await_send_json
        (VDict [(py "type", VStr (py "interview_started"));
                (py "message", VStr (py "Interview started"))])
  | Some _ => ret tt
  end.

Definition handle_answer (event : EventData) : M unit :=
  st <- get_state ;;
  match interview_bot st with
  | Some _ =>
      update_bot "current_answer" (set_current_answer (code event)) ;;
      update_bot "answer_event" (set_answer_event true)
  | None => ret tt
  end.

Definition handle_coding (event : EventData) : M unit :=
  try_except
    (st <- get_state ;;
     match interview_bot st with
     | Some bot =>
         response <- call (evaluate_code (llm bot) (ques event) (code event)) ;;
         await_send_json
           (VDict [(py "type", VStr (py "code_evaluation"));
                   (py "result", response)]) ;;
         verdict <- (if truthy response
                     then call (get response (py "RESULT"))
                     else ret response) ;;
         if truthy verdict
         then update_bot "coding_event" (set_coding_event true)
         else ret tt
     | None => ret tt
     end)
    is_Exception
    (fun e =>
       await_send_json
         (VDict [(py "type", VStr (py "coding_error"));
                 (py "message", VStr (exn_str e))])).

Definition handle_end_interview : M unit :=
  st <- get_state ;;
  match interview_bot st with
  | Some _ =>
      update_bot "stop_interview" (set_stop_interview true) ;;
      await_sleep ;;
      update_bot "stop_interview" (set_stop_interview false) ;;
      await_send_json
        (VDict [(py "type", VStr (py "interview_end"));
                (py "message", VStr (py "Interview ended"))])
  | None => ret tt
  end.

Definition handle_get_analysis : M unit :=
  st <- get_state ;;
  result <- call (analyze_results (results st)) ;;
  await_send_json
    (VDict [(py "type", VStr (py "analysis")); (py "result", result)]).

Definition handle_summary_analysis : M unit :=
  st <- get_state ;;
  summary <- call (summary_results (results st)) ;;
  await_send_json
    (VDict [(py "type", VStr (py "summary_analysis"));
            (py "result", summary)]).

Definition handle_test_coding_question : M unit :=
  let question :=
    random_choice [py "Q1. Print Hello World"; py "Q2. Print Hello Anish";
                   py "Q3. Print Hello Duniya"] in
  await_send_json
    (VDict [(py "type", VStr (py "test_coding_question"));
            (py "message", VStr question)]).

Definition handle_audio_transcription (event : EventData) : M unit :=
  try_except
    (match audio_data event with
     | None | Some [] =>
         await_send_json
           (VDict [(py "type", VStr (py "error"));
                   (py "message", VStr (py "No audio data provided"))])
     | Some wav_path =>
         transcription <- call (fst (transcribe_audio_with_overlap wav_path)) ;;
         await_send_json
           (VDict [(py "type", VStr (py "transcription_complete"));
                   (py "transcription", VStr transcription)]) ;;
         st <- get_state ;;
         match nonempty transcription, interview_bot st with
         | true, Some _ =>
             update_bot "current_answer"
                        (set_current_answer (Some transcription)) ;;
             update_bot "answer_event" (set_answer_event true)
         | _, _ => ret tt
         end
     end)
    is_Exception
    (fun e =>
       await_send_json
         (VDict [(py "type", VStr (py "transcription_error"));
                 (py "message", VStr (exn_str e))])).

(** *** Event handler *)

Definition handle_event (event : EventData) : M unit :=
  if eqb (type event) (py "upload_cv") then handle_upload_cv
  else if eqb (type event) (py "analyze_jd") then handle_analyze_jd
  else if eqb (type event) (py "start_interview") then handle_start_interview
  else if eqb (type event) (py "answer") then handle_answer event
  else if eqb (type event) (py "coding") then handle_coding event
  else if eqb (type event) (py "end_interview") then handle_end_interview
  else if eqb (type event) (py "get_analysis") then handle_get_analysis
  else if eqb (type event) (py "get_summary_analysis")
       then handle_summary_analysis
  else if eqb (type event) (py "test_coding_question")
       then handle_test_coding_question
  else if eqb (type event) (py "audio") then handle_audio_transcription event
  else ret tt.

(** *** WebSocket endpoint *)

(** One turn of [while True]: the inner [try] with its
    [except ValidationError]. *)
Definition receive_and_handle : M unit :=
  try_except
    (data <- await_receive_json ;;
     event <- call (validate data) ;;
     handle_event event)
    is_ValidationError
    (fun e =>
       await_send_json
         (VDict [(py "type", VStr (py "error"));
                 (py "message", VStr (exn_str e))])).

(** [while True]: the loop ends only when an exception leaves a turn;
    [None] when [fuel] turns all completed. *)
Fixpoint message_loop (fuel : nat) (w : World) : option (exn * World) :=
  match fuel with
  | O => None
  | S fuel' =>
      match receive_and_handle w with
      | (inr _, w') => message_loop fuel' w'
      | (inl e, w') => Some (e, w')
      end
  end.

(** The [finally] clause of the endpoint. *)
Definition release_interview : M unit :=
  st <- get_state ;;
  match interview_bot st with
  | Some _ =>
      update_bot "stop_interview" (set_stop_interview true) ;;
      update_state (set_interview_bot None)
  | None => ret tt
  end.

(** [websocket_endpoint] on an accepted connection: [inr tt] when the
    exception that ended the loop was handled by one of the outer
    [except] clauses, [inl e] when it propagates. *)
Definition websocket_endpoint (fuel : nat) (ws : WS)
  : option ((exn + unit) * World) :=
  let w0 := {| state := new_InterviewState; websocket := ws;
               tasks_created := 0 |} in
  match message_loop fuel w0 with
  | None => None
  | Some (e, w) =>
      let w' := snd (release_interview w) in
      Some (if is_WebSocketDisconnect e || is_Exception e
            then inr tt else inl e, w')
  end.

(** The evaluator's outcome has a verdict field. *)
Definition has_verdict_field (response : val) : bool :=
  match response with
  | VDict items =>
      match lookup (py "RESULT") items with Some _ => true | None => false end
  | _ => false
  end.

(** The evaluator's outcome is a dict whose verdict field holds a truthy
    value. *)
Definition has_truthy_verdict (response : val) : bool :=
  match response with
  | VDict items =>
      match lookup (py "RESULT") items with
      | Some verdict => truthy verdict
      | None => false
      end
  | _ => false
  end.

(** The replies the handlers send. *)
Definition error_reply (kind : string) (e : exn) : val :=
  VDict [(py "type", VStr (lit kind)); (py "message", VStr (exn_str e))].

Definition code_evaluation_reply (response : val) : val :=
  VDict [(py "type", VStr (py "code_evaluation")); (py "result", response)].

Definition transcription_complete_reply (transcription : str) : val :=
  VDict [(py "type", VStr (py "transcription_complete"));
         (py "transcription", VStr transcription)].

Definition interview_started_reply : val :=
  VDict [(py "type", VStr (py "interview_started"));
         (py "message", VStr (py "Interview started"))].

End Handlers.
End Server.

(** ** Concrete collaborators

    Stand-ins for the file system, the speech service, the socket and the
    evaluators, on which the definitions above can be run. *)

Module Fixtures.
Import Py SpeechToText Server.

(** A buffer of [n] zero bytes. *)
Definition silence (n : N) : bytes := repeat x00 (N.to_nat n).

(** A response with one result whose best alternative is [text]. *)
Definition heard (text : str) : RecognizeResponse :=
  {| SpeechToText.results := [ {| alternatives := [ {| transcript := text |} ] |} ] |}.

Definition unreachable : exn :=
  Exn OtherException (py "503 failed to connect to all addresses").

(** Every path holds [audio]; call [k] of a run is answered by the
    [k]-th entry of [answers], and by an unreachable service past them. *)
Definition scripted_speech (audio : bytes) (answers : list (exn + str))
  : SpeechClient :=
  {| read_file := fun _ => inr audio;
     recognize := fun k _ =>
       match nth_error answers k with
       | Some (inr text) => inr (heard text)
       | Some (inl e) => inl e
       | None => inl unreachable
       end |}.

(** A socket as the messages still to arrive and the messages sent so
    far; reading past the last message finds the peer gone, sending
    always succeeds. *)
Definition socket : Type := list val * list val.

Definition wire (inbound sent : list val) : socket := (inbound, sent).

Definition socket_receive (ws : socket) : (exn + val) * socket :=
  match fst ws with
  | [] => (inl (Exn WebSocketDisconnect (py "1000")), ws)
  | data :: rest => (inr data, (rest, snd ws))
  end.

Definition socket_send (message : val) (ws : socket) : (exn + unit) * socket :=
  (inr tt, (fst ws, snd ws ++ [message])).

Definition optional_str (k : str) (items : list (str * val))
  : exn + option str :=
  match lookup k items with
  | None | Some VNone => inr None
  | Some (VStr s) => inr (Some s)
  | Some _ => inl (Exn ValidationError (k ++ py ": str type expected"))
  end.

(** A schema check of the shape of [EventData]: [type] is required, the
    other fields are optional strings. *)
Definition check_event (data : val) : exn + EventData :=
  match data with
  | VDict items =>
      match lookup (py "type") items with
      | Some (VStr t) =>
          match optional_str (py "code") items,
                optional_str (py "ques") items,
                optional_str (py "audio_data") items with
          | inr c, inr q, inr a =>
              inr {| type := t; code := c; ques := q; audio_data := a |}
          | inl e, _, _ | _, inl e, _ | _, _, inl e => inl e
          end
      | Some _ => inl (Exn ValidationError (py "type: str type expected"))
      | None => inl (Exn ValidationError (py "type: field required"))
      end
  | _ => inl (Exn OtherException (py "argument after ** must be a mapping"))
  end.

(** Collaborators whose evaluator and analyzer give fixed outcomes. *)
Definition scripted (evaluation analysis : exn + val) (speech : SpeechClient)
  : Collaborators :=
  {| WS := socket;
     LLM := unit;
     receive_json := socket_receive;
     send_json := socket_send;
     validate := check_event;
     get_cv := fun _ ws => (inr (py "cv"), ws);
     get_job_description := fun _ ws => (inr (py "jd"), ws);
     make_llm := tt;
     evaluate_code := fun _ _ _ => evaluation;
     analyze_results := fun _ => analysis;
     summary_results := fun _ => analysis;
     random_choice := fun qs => hd [] qs;
     speech_client := speech |}.

(** A message with the given type and optional fields. *)
Definition message (t : string) (fields : list (str * val)) : val :=
  VDict ((py "type", VStr (lit t)) :: fields).

(** No file at any path. *)
Definition no_such_file : exn :=
  Exn OtherException (py "[Errno 2] No such file or directory").
Definition missing_file : SpeechClient :=
  {| read_file := fun _ => inl no_such_file;
     recognize := fun _ _ => inl unreachable |}.

(** A response given as the ranked alternatives of each of its results. *)
Definition ranked (alts : list (list str)) : RecognizeResponse :=
  {| SpeechToText.results :=
       map (fun a =>
              {| alternatives := map (fun t => {| transcript := t |}) a |})
           alts |}.

(** Every path holds [audio]; call [k] is answered by the [k]-th
    response. *)
Definition answering (audio : bytes) (responses : list RecognizeResponse)
  : SpeechClient :=
  {| read_file := fun _ => inr audio;
     recognize := fun k _ =>
       match nth_error responses k with
       | Some r => inr r
       | None => inl unreachable
       end |}.

(** A freshly accepted connection with [inbound] still to arrive. *)
Definition connection (ext : Collaborators) (ws : @WS ext) : @World ext :=
  {| state := new_InterviewState; websocket := ws; tasks_created := 0 |}.

(** The same with an interview handle in place. *)
Definition interviewing (ext : Collaborators) (ws : @WS ext) : @World ext :=
  {| state := set_interview_bot (Some (new_InterviewBot [] [] VNone))
                                new_InterviewState;
     websocket := ws;
     tasks_created := 1 |}.

Definition no_audio : SpeechClient := scripted_speech [] [].

(** An evaluator that judges the code wrong. *)
Definition verdict_false : val := VDict [(py "RESULT", VBool false)].
Definition rejecting : Collaborators :=
  scripted (inr verdict_false) (inr VNone) no_audio.

(** An evaluator that judges the code right. *)
Definition verdict_pass : val := VDict [(py "RESULT", VStr (py "PASS"))].
Definition accepting : Collaborators :=
  scripted (inr verdict_pass) (inr VNone) no_audio.

(** An evaluator and an analyzer that are down. *)
Definition timeout : exn := Exn OtherException (py "deadline exceeded").
Definition failing : Collaborators :=
  scripted (inl timeout) (inl timeout) no_audio.

(** A speech service that is down, with two bytes of audio on file. *)
Definition deaf : Collaborators :=
  scripted (inr VNone) (inr VNone)
           (scripted_speech [x00; x01] [inl unreachable]).

(** A connection in a given session state. *)
Definition session (ext : Collaborators) (st : @InterviewState ext)
           (ws : @WS ext) (launched : nat) : @World ext :=
  {| state := st; websocket := ws; tasks_created := launched |}.

Arguments session : clear implicits.

(** A connection on which nothing can be sent any more; the evaluator
    judges the code right. *)
Definition closed_for_sending : exn :=
  Exn RuntimeError (py "Cannot call send once a close message has been sent").
Definition muted : Collaborators :=
  {| WS := socket;
     LLM := unit;
     receive_json := socket_receive;
     send_json := fun _ ws => (inl closed_for_sending, ws);
     validate := check_event;
     get_cv := fun _ ws => (inr (py "cv"), ws);
     get_job_description := fun _ ws => (inr (py "jd"), ws);
     make_llm := tt;
     evaluate_code := fun _ _ _ => inr verdict_pass;
     analyze_results := fun _ => inr VNone;
     summary_results := fun _ => inr VNone;
     random_choice := fun qs => hd [] qs;
     speech_client := no_audio |}.

(** An evaluator that answers in prose. *)
Definition chatty : Collaborators :=
  scripted (inr (VStr (py "looks fine"))) (inr VNone) no_audio.

(** A speech service that hears an answer in two bytes of audio. *)
Definition listening : Collaborators :=
  scripted (inr VNone) (inr VNone)
           (scripted_speech [x00; x01] [inr (py "forty two")]).

(** An interview that stays suspended whatever the signals say. *)
Definition waiting (ext : Collaborators) : @Interviewer ext :=
  {| conduct_interview := fun bot results ws => (Suspended bot, results, ws) |}.


(** Unless said otherwise, the interviews of the collaborators above
    stay suspended. *)
#[export] Instance waiting_accepting : @Interviewer accepting :=
  waiting accepting.
#[export] Instance waiting_rejecting : @Interviewer rejecting :=
  waiting rejecting.
#[export] Instance waiting_failing : @Interviewer failing := waiting failing.
#[export] Instance waiting_deaf : @Interviewer deaf := waiting deaf.
#[export] Instance waiting_chatty : @Interviewer chatty := waiting chatty.
#[export] Instance waiting_listening : @Interviewer listening :=
  waiting listening.
#[export] Instance waiting_muted : @Interviewer muted := waiting muted.

(** Two seconds of sound: one window of zero bytes, then one of ones. *)
Definition tone (b : byte) (n : N) : bytes := repeat b (N.to_nat n).
Definition two_tones : bytes := tone x00 160000 ++ tone x01 160000.

Definition event_of (t : string) (c q a : option str) : EventData :=
  {| type := lit t; code := c; ques := q; audio_data := a |}.

End Fixtures.

Import Py SpeechToText.

(** * Properties *)

(** ** Strings *)

Lemma eqb_eq (a b : str) : eqb a b = true <-> a = b.
Proof.
  revert b; induction a as [|x a IH]; intros [|y b]; simpl;
    try (split; [discriminate | congruence]); try tauto.
  rewrite andb_true_iff, N.eqb_eq, IH.
  split; [intros [-> ->]; reflexivity | intros H; inversion H; auto].
Qed.

Lemma eqb_neq (a b : str) : a <> b -> eqb a b = false.
Proof.
  intros H. destruct (eqb a b) eqn:E; [|reflexivity].
  apply eqb_eq in E. contradiction.
Qed.

(** [startswith] decides "is a literal prefix of". *)
Lemma startswith_prefix (s p : str) :
  startswith s p = true <-> exists rest, s = p ++ rest.
Proof.
  revert s; induction p as [|c p IH]; intros s; simpl.
  - split; [intros _; exists s; reflexivity | reflexivity].
  - destruct s as [|d s].
    + split; [discriminate | intros [r H]; discriminate].
    + rewrite andb_true_iff, N.eqb_eq, IH. split.
      * intros [-> [r ->]]. exists r. reflexivity.
      * intros [r H]. inversion H; subst. split; [reflexivity | now exists r].
Qed.

(** ** The word-overlap merger *)

(** The scan returns the first index of its range that matches. *)
Lemma scan_overlap_first (fw lw : str) (before after : list nat) (i : nat) :
  (forall j, In j before -> startswith fw (skipn j lw) = false) ->
  startswith fw (skipn i lw) = true ->
  scan_overlap fw lw (before ++ i :: after) = Some i.
Proof.
  induction before as [|j before IH]; simpl; intros Hb Hi.
  - now rewrite Hi.
  - rewrite (Hb j) by auto. apply IH; auto.
Qed.

Lemma last_snoc (A : Type) (l : list A) (x d : A) : last (l ++ [x]) d = x.
Proof. apply last_last. Qed.

(** C9. When either input has no words, the merger returns the direct
    concatenation [previous + " " + current]; being a total function of
    its two strings, it raises nothing. *)
Theorem merge_without_words (previous current : str) :
  split previous = [] \/ split current = [] ->
  merge_with_overlap previous current = previous ++ py " " ++ current.
Proof.
  unfold merge_with_overlap. intros [H | H]; rewrite H.
  - reflexivity.
  - destruct (split previous); reflexivity.
Qed.

(** [merge("", "anything")] is [" anything"], with its leading space. *)
Lemma merge_without_words_witness :
  (split (py "") = [] \/ split (py "anything") = [])
  /\ merge_with_overlap (py "") (py "anything") = py " anything".
Proof.
  split.
  - left. reflexivity.
  - exact (merge_without_words (py "") (py "anything") (or_introl eq_refl)).
Defined.

(** C5. Let the last word of [previous] and the first word of [current]
    differ, and let [overlap] be the longest non-empty suffix of the last
    word that is a literal prefix of the first word. Then the scan stops
    at that suffix, and the merger returns the words of [previous] with
    the last one replaced by (the last word without [overlap]) followed
    by the entire first word, then the remaining words of [current],
    joined by single spaces. *)
Theorem merge_partial_overlap
        (previous current : str) (previous_words current_words : list str)
        (last_word first_word kept overlap : str) :
  split previous = previous_words ++ [last_word] ->
  split current = first_word :: current_words ->
  last_word <> first_word ->
  last_word = kept ++ overlap ->
  overlap <> [] ->
  (exists rest, first_word = overlap ++ rest) ->
  (forall kept' overlap',
      last_word = kept' ++ overlap' ->
      length overlap < length overlap' ->
      ~ exists rest, first_word = overlap' ++ rest) ->
  scan_overlap first_word last_word (seq 0 (length last_word))
  = Some (length kept)
  /\ merge_with_overlap previous current
     = join (py " ")
            (previous_words ++ [kept ++ first_word] ++ current_words).
Proof.
  intros Hp Hc Hne Hlw Hov Hpre Hlongest.
  assert (Hscan : scan_overlap first_word last_word
                    (seq 0 (length last_word)) = Some (length kept)).
  { assert (Hlen : length last_word
                   = length kept + S (length last_word - S (length kept))).
    { destruct overlap; [congruence|].
      subst last_word. rewrite length_app. simpl. lia. }
    rewrite Hlen, seq_app. simpl.
    apply scan_overlap_first.
    - intros j Hj. apply in_seq in Hj.
      destruct (startswith first_word (skipn j last_word)) eqn:E; [|reflexivity].
      exfalso. apply startswith_prefix in E.
      apply (Hlongest (firstn j last_word) (skipn j last_word)); auto.
      + symmetry. apply firstn_skipn.
      + rewrite length_skipn. subst last_word. rewrite length_app. lia.
    - subst last_word. rewrite skipn_app, skipn_all, Nat.sub_diag. simpl.
      apply startswith_prefix. exact Hpre. }
  split; [exact Hscan|].
  unfold merge_with_overlap. rewrite Hp, Hc.
  destruct (previous_words ++ [last_word]) eqn:Hw.
  { destruct previous_words; discriminate. }
  rewrite <- Hw. cbv zeta. simpl hd. simpl tl.
  rewrite last_snoc, removelast_last, (eqb_neq Hne), Hscan.
  subst last_word. rewrite firstn_app, firstn_all, Nat.sub_diag. simpl firstn.
  rewrite app_nil_r. reflexivity.
Qed.

(** Two suffixes of ["xaba"] start ["abab"]: ["aba"] and ["a"]. The
    longer one is taken, so the shared word is ["x"] + ["abab"]. *)
Lemma merge_partial_overlap_witness :
  scan_overlap (py "abab") (py "xaba") (seq 0 4) = Some 1
  /\ merge_with_overlap (py "go xaba") (py "abab now") = py "go xabab now".
Proof.
  refine (@merge_partial_overlap
            (py "go xaba") (py "abab now")
            [py "go"] [py "now"] (py "xaba") (py "abab")
            (py "x") (py "aba")
            eq_refl eq_refl _ eq_refl _ _ _).
  - discriminate.
  - discriminate.
  - exists (py "b"). reflexivity.
  - intros kept' overlap' H Hlt [rest Hrest].
    destruct kept' as [|c kept'].
    + simpl in H. subst overlap'. discriminate Hrest.
    + apply (f_equal (@length _)) in H. simpl in H, Hlt.
      rewrite length_app in H. lia.
Defined.

(** ** The chunked pipeline *)

Section PipelineFacts.
Context {client : SpeechClient}.

(** Division by the window length, as the inequalities [lia] works
    with. *)
Lemma windows_needed (n : N) :
  exists q r : N,
    ((n + chunk_duration - 1) / chunk_duration = q
     /\ n + chunk_duration - 1 = chunk_duration * q + r
     /\ r < chunk_duration)%N.
Proof.
  exists ((n + chunk_duration - 1) / chunk_duration)%N,
         ((n + chunk_duration - 1) mod chunk_duration)%N.
  split; [reflexivity | split].
  - apply N.div_mod. discriminate.
  - apply N.mod_lt. discriminate.
Qed.

Lemma window_count_lt (audio : bytes) (k : nat) :
  (N.of_nat k * chunk_duration < len audio)%N <-> k < window_count audio.
Proof.
  unfold window_count.
  destruct (windows_needed (len audio)) as (q & r & -> & D & M).
  unfold chunk_duration in *. split; intro; lia.
Qed.

Lemma window_count_le_length (audio : bytes) :
  window_count audio <= length audio.
Proof.
  unfold window_count.
  destruct (windows_needed (len audio)) as (q & r & -> & D & M).
  unfold chunk_duration, len in *. lia.
Qed.

Lemma remaining_next (audio : bytes) (k : nat) :
  k < window_count audio ->
  remaining audio k = window audio k :: remaining audio (S k).
Proof.
  unfold remaining. intros H.
  replace (window_count audio - k) with (S (window_count audio - S k)) by lia.
  reflexivity.
Qed.

Lemma remaining_done (audio : bytes) (k : nat) :
  window_count audio <= k -> remaining audio k = [].
Proof.
  unfold remaining. intros H.
  replace (window_count audio - k) with 0 by lia. reflexivity.
Qed.

(** The loop, started at the cursor of window [k] with [k] calls made,
    submits the remaining windows in order until one fails, and on
    success returns the accumulated text extended by their stitching. *)
Lemma transcribe_loop_windows (audio : bytes) (fuel : nat) :
  forall (k : nat) (previous acc : str) (calls : list bytes),
    length calls = k ->
    window_count audio - k <= fuel ->
    transcribe_loop fuel audio (N.of_nat k * chunk_duration) previous acc calls
    = Some (match fragments_from k (remaining audio k) with
            | inl e => inl e
            | inr fs => inr (strip (acc ++ stitch_after previous fs))
            end,
            calls ++ submitted_from k (remaining audio k)).
Proof.
  induction fuel as [|fuel IH]; intros k previous acc calls Hk Hfuel.
  - assert (Hdone : window_count audio <= k) by lia.
    rewrite (remaining_done _ Hdone). simpl.
    destruct (N.ltb_spec (N.of_nat k * chunk_duration) (len audio)) as [Hlt|_].
    + apply window_count_lt in Hlt. lia.
    + now rewrite !app_nil_r.
  - cbn [transcribe_loop].
    destruct (N.ltb_spec (N.of_nat k * chunk_duration) (len audio)) as [Hlt|Hge].
    + apply window_count_lt in Hlt.
      rewrite (remaining_next _ Hlt). cbn [fragments_from submitted_from].
      rewrite Hk. change (slice audio _ _) with (window audio k).
      destruct (chunk_transcription_of k (window audio k)) as [e|f];
        [reflexivity|].
      replace (N.of_nat k * chunk_duration + chunk_duration)%N
        with (N.of_nat (S k) * chunk_duration)%N by lia.
      rewrite IH by (rewrite ?length_app; simpl; lia).
      rewrite <- app_assoc. cbn [app].
      destruct (fragments_from (S k) (remaining audio (S k))) as [e|fs];
        [reflexivity|].
      cbn [stitch_after].
      destruct (nonempty previous); now rewrite <- app_assoc.
    + assert (Hdone : window_count audio <= k).
      { destruct (le_lt_dec (window_count audio) k) as [H|H]; [exact H|].
        apply window_count_lt in H. lia. }
      rewrite (remaining_done _ Hdone). simpl. now rewrite !app_nil_r.
Qed.

(** The pipeline as a whole: what it returns and what it submits. *)
Lemma transcribe_audio_with_overlap_windows (wav_path : str) (audio : bytes) :
  read_file wav_path = inr audio ->
  transcribe_audio_with_overlap wav_path
  = (match fragments audio with
     | inl e => inl (reraise e)
     | inr fs => inr (strip (stitch fs))
     end,
     submitted_from 0 (windows audio)).
Proof.
  intros Hread. unfold transcribe_audio_with_overlap. rewrite Hread.
  pose proof (@transcribe_loop_windows audio (length audio) 0 [] [] []
                eq_refl) as H.
  change (N.of_nat 0 * chunk_duration)%N with 0%N in H.
  rewrite H by (pose proof (window_count_le_length audio); lia).
  clear H. unfold remaining, fragments, windows, stitch.
  rewrite Nat.sub_0_r. cbn [app].
  destruct (fragments_from 0 _); reflexivity.
Qed.

Lemma submitted_all (chunks : list bytes) :
  forall (k : nat) (fs : list str),
    fragments_from k chunks = inr fs -> submitted_from k chunks = chunks.
Proof.
  induction chunks as [|c chunks IH]; intros k fs; simpl; [reflexivity|].
  destruct (chunk_transcription_of k c) as [e|f]; [discriminate|].
  destruct (fragments_from (S k) chunks) as [e|fs'] eqn:E; [discriminate|].
  intros _. f_equal. eapply IH. exact E.
Qed.

Lemma submitted_prefix (chunks : list bytes) :
  forall k : nat, exists m : nat, submitted_from k chunks = firstn m chunks.
Proof.
  induction chunks as [|c chunks IH]; intros k; simpl.
  - exists 0. reflexivity.
  - destruct (chunk_transcription_of k c) as [e|f].
    + exists 1. reflexivity.
    + destruct (IH (S k)) as [m Hm]. exists (S m). simpl. now rewrite Hm.
Qed.

Lemma window_nth (audio : bytes) (j : nat) :
  j < window_count audio -> nth j (windows audio) [] = window audio j.
Proof.
  intros H. unfold windows.
  rewrite (nth_indep _ [] (window audio 0))
    by (now rewrite length_map, length_seq).
  rewrite (map_nth (window audio)), seq_nth by exact H. reflexivity.
Qed.

(** The first failing call ends the run: its error is the outcome and
    the chunks submitted are those up to it. *)
Lemma first_failure (chunks : list bytes) :
  forall (k0 k : nat) (e : exn),
    k < length chunks ->
    (forall j, j < k ->
       exists f, chunk_transcription_of (k0 + j) (nth j chunks []) = inr f) ->
    chunk_transcription_of (k0 + k) (nth k chunks []) = inl e ->
    fragments_from k0 chunks = inl e
    /\ submitted_from k0 chunks = firstn (S k) chunks.
Proof.
  induction chunks as [|c chunks IH]; intros k0 k e Hk Hbefore Hfail;
    [simpl in Hk; lia|].
  destruct k as [|k].
  - rewrite Nat.add_0_r in Hfail. cbn [nth] in Hfail.
    cbn [fragments_from submitted_from]. rewrite Hfail.
    split; reflexivity.
  - destruct (Hbefore 0 ltac:(lia)) as [f Hf].
    rewrite Nat.add_0_r in Hf. cbn [nth] in Hf.
    cbn [fragments_from submitted_from]. rewrite Hf.
    destruct (IH (S k0) k e) as [H1 H2].
    + simpl in Hk. lia.
    + intros j Hj. destruct (Hbefore (S j) ltac:(lia)) as [g Hg].
      exists g. rewrite <- Hg. cbn [nth]. f_equal. lia.
    + rewrite <- Hfail. cbn [nth]. f_equal. lia.
    + rewrite H1, H2. split; reflexivity.
Qed.

Lemma reraise_Exception (e : exn) :
  is_Exception e = true ->
  reraise e
  = Exn RuntimeError (py "Error during audio transcription: " ++ exn_str e).
Proof. unfold reraise. now intros ->. Qed.

(** C1 (as the code has it). For an empty buffer the loop is not
    entered: no call is made and the empty transcript is returned. For a
    buffer with windows, the first window on which the speech service
    raises ends the run with that error, re-raised as a [RuntimeError]
    when it is an [Exception]. *)
Theorem transcribe_failures (wav_path : str) (audio : bytes) :
  read_file wav_path = inr audio ->
  (audio = [] -> transcribe_audio_with_overlap wav_path = (inr [], []))
  /\ (forall (k : nat) (e : exn),
        k < window_count audio ->
        (forall j, j < k ->
           exists f, chunk_transcription_of j (window audio j) = inr f) ->
        recognize k (window audio k) = inl e ->
        transcribe_audio_with_overlap wav_path
        = (inl (reraise e), firstn (S k) (windows audio))
        /\ (is_Exception e = true ->
            reraise e
            = Exn RuntimeError
                  (py "Error during audio transcription: " ++ exn_str e))).
Proof.
  intros Hread. rewrite (transcribe_audio_with_overlap_windows _ Hread).
  split.
  - intros ->. reflexivity.
  - intros k e Hk Hbefore Hfail. split; [|apply reraise_Exception].
    destruct (@first_failure (windows audio) 0 k e) as [H1 H2].
    + unfold windows. now rewrite length_map, length_seq.
    + intros j Hj. rewrite window_nth by lia. apply Hbefore. exact Hj.
    + rewrite window_nth by exact Hk. simpl.
      unfold chunk_transcription_of. now rewrite Hfail.
    + unfold fragments. rewrite H1, H2. reflexivity.
Qed.

(** A window is what [firstn] and [skipn] cut out of the buffer:
    [chunk_duration + overlap_duration] bytes from offset
    [k * chunk_duration], or as many as the buffer still has. *)
Lemma window_as_chunk (audio : bytes) (k : nat) :
  window audio k
  = firstn (N.to_nat (chunk_duration + overlap_duration))
           (skipn (k * N.to_nat chunk_duration) audio).
Proof.
  unfold window, slice, len.
  replace (N.to_nat (N.of_nat k * chunk_duration))
    with (k * N.to_nat chunk_duration) by lia.
  set (rest := skipn (k * N.to_nat chunk_duration) audio).
  assert (Hrest : length rest = length audio - k * N.to_nat chunk_duration)
    by apply length_skipn.
  destruct (Nat.le_gt_cases (N.to_nat (chunk_duration + overlap_duration))
                            (length rest)) as [H|H].
  - f_equal. unfold chunk_duration, overlap_duration in *. lia.
  - rewrite !firstn_all2; [reflexivity | lia |].
    unfold chunk_duration, overlap_duration in *. lia.
Qed.

(** Of windows due as calls [k], [k+1], ... an initial run is
    submitted: every call but the last of the run went through, and the
    run stops short only at a call that failed. *)
Lemma submitted_run (f : nat -> bytes) (n : nat) :
  forall k, exists m,
    m <= n
    /\ submitted_from k (map f (seq k n)) = map f (seq k m)
    /\ (forall i, S i < m ->
          exists t, chunk_transcription_of (k + i) (f (k + i)) = inr t)
    /\ (m < n ->
        0 < m
        /\ exists e,
             chunk_transcription_of (k + m - 1) (f (k + m - 1)) = inl e).
Proof.
  induction n as [|n IH]; intros k.
  - exists 0. split; [lia|]. split; [reflexivity|]. split.
    + intros i Hi. lia.
    + intros Hlt. lia.
  - cbn [seq map submitted_from].
    destruct (chunk_transcription_of k (f k)) as [e|t] eqn:Hk.
    + exists 1. split; [lia|]. split; [reflexivity|]. split.
      * intros i Hi. lia.
      * intros _. split; [lia|]. exists e.
        replace (k + 1 - 1) with k by lia. exact Hk.
    + destruct (IH (S k)) as (m & Hm & Hsub & Hbefore & Hlast).
      exists (S m). split; [lia|]. split; [cbn [seq map]; now rewrite Hsub|].
      split.
      * intros [|i] Hi.
        { exists t. now rewrite Nat.add_0_r. }
        destruct (Hbefore i ltac:(lia)) as [t' Ht']. exists t'.
        now replace (k + S i) with (S k + i) by lia.
      * intros Hlt. destruct (Hlast ltac:(lia)) as [Hpos [e He]].
        split; [lia|]. exists e.
        now replace (k + S m - 1) with (S k + m - 1) by lia.
Qed.

(** C3 (as the code has it). Call number [k] of a run is given the
    bytes of the buffer from offset [k * chunk_duration] up to, but not
    including, offset [min(k * chunk_duration + chunk_duration +
    overlap_duration, len)]: [chunk_duration + overlap_duration] bytes
    from that offset, or as many as are left. The run makes such calls
    for k = 0, 1, ... until one fails: never more than
    ceil(len / chunk_duration), fewer only after a call that failed,
    exactly that many when it returns a transcript, and at least the
    first when the buffer is not empty. A buffer of exactly
    [chunk_duration] bytes is submitted once, whole. One of twice that
    length is submitted as two windows, the second starting at offset
    [chunk_duration], when the first call goes through, and as the first
    window alone when it fails. *)
Theorem pipeline_windows (wav_path : str) (audio : bytes) :
  read_file wav_path = inr audio ->
  let calls := snd (transcribe_audio_with_overlap wav_path) in
  let chunk k :=
    firstn (N.to_nat (chunk_duration + overlap_duration))
           (skipn (k * N.to_nat chunk_duration) audio) in
  (exists m,
      calls = map chunk (seq 0 m)
      /\ (N.of_nat m * chunk_duration < len audio + chunk_duration)%N
      /\ (forall i, S i < m ->
            exists t, chunk_transcription_of i (chunk i) = inr t)
      /\ ((N.of_nat m * chunk_duration < len audio)%N ->
          0 < m
          /\ exists e,
               chunk_transcription_of (m - 1) (chunk (m - 1)) = inl e)
      /\ (forall text,
            fst (transcribe_audio_with_overlap wav_path) = inr text ->
            (len audio <= N.of_nat m * chunk_duration)%N))
  /\ (audio <> [] -> exists rest, calls = chunk 0 :: rest)
  /\ (len audio = chunk_duration -> calls = [audio])
  /\ (len audio = (2 * chunk_duration)%N ->
      ((exists f, chunk_transcription_of 0 (chunk 0) = inr f) ->
       calls = [firstn (N.to_nat (chunk_duration + overlap_duration)) audio;
                skipn (N.to_nat chunk_duration) audio])
      /\ ((exists e, chunk_transcription_of 0 (chunk 0) = inl e) ->
          calls = [firstn (N.to_nat (chunk_duration + overlap_duration))
                          audio])).
Proof.
  intros Hread calls chunk. subst calls.
  rewrite (transcribe_audio_with_overlap_windows _ Hread). cbn [fst snd].
  assert (Hwin : windows audio = map chunk (seq 0 (window_count audio))).
  { unfold windows. apply map_ext. intros k. apply window_as_chunk. }
  rewrite Hwin.
  assert (Hcount : (N.of_nat (window_count audio) * chunk_duration
                    < len audio + chunk_duration
                    /\ len audio
                       <= N.of_nat (window_count audio) * chunk_duration)%N).
  { unfold window_count.
    destruct (windows_needed (len audio)) as (q & r & -> & D & M).
    unfold chunk_duration in *. lia. }
  split; [|split; [|split]].
  - destruct (submitted_run chunk (window_count audio) 0)
      as (m & Hm & Hsub & Hbefore & Hlast).
    exists m. split; [exact Hsub|]. split; [|split; [|split]].
    + unfold chunk_duration in *. lia.
    + exact Hbefore.
    + intros Hlt. apply Hlast.
      destruct (Nat.lt_ge_cases m (window_count audio)) as [H|H]; [exact H|].
      unfold chunk_duration in *. lia.
    + intros text H.
      destruct (fragments audio) as [e|fs] eqn:E; [discriminate|].
      unfold fragments in E. rewrite Hwin in E.
      apply submitted_all in E. unfold bytes in *. rewrite E in Hsub.
      apply (f_equal (@length _)) in Hsub.
      rewrite !length_map, !length_seq in Hsub. subst m. tauto.
  - intros Hne.
    assert (H0 : 0 < window_count audio).
    { apply window_count_lt. unfold len. destruct audio; [congruence|].
      simpl length. lia. }
    destruct (window_count audio) as [|n]; [lia|].
    cbn [seq map submitted_from]. eexists. reflexivity.
  - intros Hlen.
    assert (Hn : window_count audio = 1).
    { unfold window_count. rewrite Hlen. reflexivity. }
    rewrite Hn. cbn [seq map submitted_from].
    assert (H0 : chunk 0 = audio).
    { unfold chunk. cbn [Nat.mul skipn]. apply firstn_all2.
      unfold len, chunk_duration, overlap_duration in *. lia. }
    rewrite H0. now destruct (chunk_transcription_of 0 audio).
  - intros Hlen.
    assert (Hn : window_count audio = 2).
    { unfold window_count. rewrite Hlen. reflexivity. }
    rewrite Hn. cbn [seq map submitted_from].
    assert (H0 : chunk 0
                 = firstn (N.to_nat (chunk_duration + overlap_duration))
                          audio) by reflexivity.
    assert (H1 : chunk 1 = skipn (N.to_nat chunk_duration) audio).
    { unfold chunk. rewrite Nat.mul_1_l. apply firstn_all2.
      rewrite length_skipn.
      unfold len, chunk_duration, overlap_duration in *. lia. }
    rewrite H1, <- H0. split.
    + intros [f Hf]. rewrite Hf.
      now destruct (chunk_transcription_of 1 _).
    + intros [e He]. now rewrite He.
Qed.

(** C4 (as the code has it). When every window yields a fragment, the
    transcript is the trimmed stitching of the raw fragments in window
    order: the first fragment, then for each later fragment its merge
    with the raw fragment before it when that one is not empty, and the
    fragment itself when it is. *)
Theorem transcript_is_stitched (wav_path : str) (audio : bytes)
        (fs : list str) :
  read_file wav_path = inr audio ->
  fragments audio = inr fs ->
  fst (transcribe_audio_with_overlap wav_path) = inr (strip (stitch fs))
  /\ stitch fs
     = match fs with
       | [] => []
       | f1 :: rest => f1 ++ stitch_after f1 rest
       end.
Proof.
  intros Hread Hfs.
  rewrite (transcribe_audio_with_overlap_windows _ Hread), Hfs.
  split; [reflexivity|]. destruct fs; reflexivity.
Qed.

End PipelineFacts.

Import Fixtures.

Lemma len_silence (n : N) : len (silence n) = n.
Proof. unfold len, silence. rewrite repeat_length. apply N2Nat.id. Qed.

(** C1, as stated, fails: an empty buffer is transcribed to the empty
    transcript, even with the speech service unreachable. *)
Lemma empty_buffer_is_transcribed :
  @read_file (scripted_speech [] []) (py "answer.wav") = inr []
  /\ @recognize (scripted_speech [] []) 0 [] = inl unreachable
  /\ @transcribe_audio_with_overlap (scripted_speech [] []) (py "answer.wav")
     = (inr (py ""), [])
  /\ ~ exists e,
        fst (@transcribe_audio_with_overlap (scripted_speech [] [])
                                            (py "answer.wav"))
        = inl e.
Proof. repeat split. intros [e H]. discriminate H. Qed.

Lemma transcribe_failures_witness :
  @transcribe_audio_with_overlap (scripted_speech [] []) (py "answer.wav")
  = (inr [], [])
  /\ @transcribe_audio_with_overlap
       (scripted_speech [x00; x01] [inl unreachable]) (py "answer.wav")
     = (inl (Exn RuntimeError
                 (py "Error during audio transcription: 503 failed to connect to all addresses")),
        [[x00; x01]]).
Proof.
  split.
  - exact (proj1 (@transcribe_failures (scripted_speech [] [])
                    (py "answer.wav") [] eq_refl) eq_refl).
  - refine (proj1 (proj2 (@transcribe_failures
                      (scripted_speech [x00; x01] [inl unreachable])
                      (py "answer.wav") [x00; x01] eq_refl)
                    0 unreachable _ _ eq_refl)).
    + vm_compute. lia.
    + intros j Hj. lia.
Defined.

Lemma firstn_of_repeat (A : Type) (a : A) (n m : nat) :
  firstn n (repeat a m) = repeat a (Nat.min n m).
Proof.
  revert m; induction n as [|n IH]; intros [|m]; simpl; try reflexivity.
  now rewrite IH.
Qed.

Lemma len_two_tones : len two_tones = (2 * chunk_duration)%N.
Proof.
  unfold len, two_tones, tone. rewrite length_app, !repeat_length.
  unfold chunk_duration. lia.
Qed.

Lemma len_tone (b : byte) (n : N) : len (tone b n) = n.
Proof. unfold len, tone. rewrite repeat_length. apply N2Nat.id. Qed.

Lemma two_tones_first :
  firstn (N.to_nat (chunk_duration + overlap_duration)) two_tones
  = tone x00 160000 ++ tone x01 16000.
Proof.
  unfold two_tones, tone. rewrite firstn_app, repeat_length.
  rewrite firstn_all2
    by (rewrite repeat_length; unfold chunk_duration, overlap_duration; lia).
  apply f_equal. rewrite firstn_of_repeat. apply f_equal.
  unfold chunk_duration, overlap_duration. lia.
Qed.

Lemma two_tones_second :
  skipn (N.to_nat chunk_duration) two_tones = tone x01 160000.
Proof.
  unfold two_tones, tone, chunk_duration.
  rewrite skipn_app, repeat_length, Nat.sub_diag.
  rewrite skipn_all2 by (rewrite repeat_length; lia). reflexivity.
Qed.

(** C3, as stated, fails: a buffer of twice [chunk_duration] bytes
    causes one call, not two, when the first call fails. *)
Lemma failed_first_window_is_the_only_call :
  len two_tones = (2 * chunk_duration)%N
  /\ snd (@transcribe_audio_with_overlap
            (scripted_speech two_tones [inl unreachable]) (py "answer.wav"))
     = [tone x00 160000 ++ tone x01 16000]
  /\ length (snd (@transcribe_audio_with_overlap
                    (scripted_speech two_tones [inl unreachable])
                    (py "answer.wav")))
     <> 2.
Proof.
  assert (H : snd (@transcribe_audio_with_overlap
                     (scripted_speech two_tones [inl unreachable])
                     (py "answer.wav"))
              = [tone x00 160000 ++ tone x01 16000]).
  { rewrite (@transcribe_audio_with_overlap_windows
               (scripted_speech two_tones [inl unreachable])
               (py "answer.wav") two_tones eq_refl).
    cbn [snd]. unfold windows, window_count. rewrite len_two_tones.
    change (N.to_nat ((2 * chunk_duration + chunk_duration - 1)
                      / chunk_duration)) with 2.
    cbn [seq map submitted_from].
    change (@chunk_transcription_of
              (scripted_speech two_tones [inl unreachable]) 0
              (window two_tones 0))
      with (@inl exn str unreachable).
    rewrite window_as_chunk. cbn [Nat.mul skipn].
    now rewrite two_tones_first. }
  split; [exact len_two_tones|]. split; [exact H|].
  rewrite H. discriminate.
Qed.

Lemma pipeline_windows_witness :
  snd (@transcribe_audio_with_overlap
         (scripted_speech (tone x01 160000) [inr (py "hello")])
         (py "answer.wav"))
  = [tone x01 160000]
  /\ snd (@transcribe_audio_with_overlap
            (scripted_speech two_tones
                             [inr (py "hello ther"); inr (py "there world")])
            (py "answer.wav"))
     = [tone x00 160000 ++ tone x01 16000; tone x01 160000]
  /\ snd (@transcribe_audio_with_overlap
            (scripted_speech two_tones [inl unreachable]) (py "answer.wav"))
     = [tone x00 160000 ++ tone x01 16000].
Proof.
  split; [|split].
  - exact (proj1 (proj2 (proj2
             (@pipeline_windows
                (scripted_speech (tone x01 160000) [inr (py "hello")])
                (py "answer.wav") (tone x01 160000) eq_refl)))
             (len_tone x01 160000)).
  - rewrite <- two_tones_first, <- two_tones_second.
    exact (proj1 (proj2 (proj2 (proj2
             (@pipeline_windows
                (scripted_speech two_tones
                   [inr (py "hello ther"); inr (py "there world")])
                (py "answer.wav") two_tones eq_refl)))
             len_two_tones)
             (ex_intro _ (py "hello ther") eq_refl)).
  - rewrite <- two_tones_first.
    exact (proj2 (proj2 (proj2 (proj2
             (@pipeline_windows
                (scripted_speech two_tones [inl unreachable])
                (py "answer.wav") two_tones eq_refl)))
             len_two_tones)
             (ex_intro _ unreachable eq_refl)).
Defined.

(** C4, as stated, fails: after an empty fragment the next one is
    appended as it is, not merged. Three windows heard as "a", "" and "b"
    give "aa b"; merging every fragment with the one before it would give
    "aa  b". *)
Lemma empty_fragment_is_not_merged :
  @fragments (scripted_speech (silence 320001)
                              [inr (py "a"); inr (py ""); inr (py "b")])
             (silence 320001)
  = inr [py "a"; py ""; py "b"]
  /\ fst (@transcribe_audio_with_overlap
            (scripted_speech (silence 320001)
                             [inr (py "a"); inr (py ""); inr (py "b")])
            (py "answer.wav"))
     = inr (py "aa b")
  /\ strip (stitch_all_merged [py "a"; py ""; py "b"]) = py "aa  b"
  /\ fst (@transcribe_audio_with_overlap
            (scripted_speech (silence 320001)
                             [inr (py "a"); inr (py ""); inr (py "b")])
            (py "answer.wav"))
     <> inr (strip (stitch_all_merged [py "a"; py ""; py "b"])).
Proof.
  assert (H : @fragments (scripted_speech (silence 320001)
                            [inr (py "a"); inr (py ""); inr (py "b")])
                         (silence 320001)
              = inr [py "a"; py ""; py "b"]).
  { unfold fragments, windows, window_count. rewrite len_silence.
    reflexivity. }
  assert (T : fst (@transcribe_audio_with_overlap
                     (scripted_speech (silence 320001)
                        [inr (py "a"); inr (py ""); inr (py "b")])
                     (py "answer.wav"))
              = inr (py "aa b")).
  { rewrite (@transcribe_audio_with_overlap_windows
               (scripted_speech (silence 320001)
                                [inr (py "a"); inr (py ""); inr (py "b")])
               (py "answer.wav") (silence 320001) eq_refl).
    cbn [fst]. rewrite H. reflexivity. }
  split; [exact H|]. split; [exact T|]. split; [reflexivity|].
  rewrite T. discriminate.
Qed.

Lemma transcript_is_stitched_witness :
  fst (@transcribe_audio_with_overlap
         (scripted_speech (silence 320000)
                          [inr (py "hello ther"); inr (py "there world")])
         (py "answer.wav"))
  = inr (py "hello therhello there world").
Proof.
  refine (proj1 (@transcript_is_stitched
            (scripted_speech (silence 320000)
                             [inr (py "hello ther"); inr (py "there world")])
            (py "answer.wav") (silence 320000)
            [py "hello ther"; py "there world"] eq_refl _)).
  unfold fragments, windows, window_count. rewrite len_silence. reflexivity.
Defined.

(** ** The connection handler *)

Import Server.

Section ServerFacts.
Context {ext : Collaborators} {interviewer : Interviewer}.

#[local] Existing Instance speech_client.

Lemma handle_event_start_interview (event : EventData) :
  type event = py "start_interview" ->
  handle_event event = handle_start_interview.
Proof. unfold handle_event. now intros ->. Qed.

Lemma handle_event_answer (event : EventData) :
  type event = py "answer" -> handle_event event = handle_answer event.
Proof. unfold handle_event. now intros ->. Qed.

Lemma handle_event_coding (event : EventData) :
  type event = py "coding" -> handle_event event = handle_coding event.
Proof. unfold handle_event. now intros ->. Qed.

Lemma handle_event_audio (event : EventData) :
  type event = py "audio" ->
  handle_event event = handle_audio_transcription event.
Proof. unfold handle_event. now intros ->. Qed.

(** A turn whose message arrives and validates is the handling of its
    event, within the [except ValidationError] of the loop. *)
Lemma receive_and_handle_event (w : World) (data : val) (ws1 : WS)
      (event : EventData) :
  receive_json (websocket w) = (inr data, ws1) ->
  validate data = inr event ->
  receive_and_handle w
  = match handle_event event (set_websocket ws1 w) with
    | (inl e, w') =>
        if is_ValidationError e
        then await_send_json (error_reply "error" e) w'
        else (inl e, w')
    | (inr a, w') => (inr a, w')
    end.
Proof.
  intros Hrecv Hval.
  unfold receive_and_handle, try_except, bind, await_receive_json,
    on_websocket, call.
  rewrite Hrecv, Hval. reflexivity.
Qed.

(** C7. An answer that arrives while no interview handle exists is
    dropped: the handler returns normally, and the session state, the
    socket (nothing is sent) and the task count are those it found. *)
Theorem answer_without_interview (event : EventData) (w : World) :
  interview_bot (state w) = None ->
  handle_answer event w = (inr tt, w)
  /\ (type event = py "answer" -> handle_event event w = (inr tt, w)).
Proof.
  intros Hbot.
  assert (H : handle_answer event w = (inr tt, w)).
  { unfold handle_answer, bind, get_state. rewrite Hbot. reflexivity. }
  split; [exact H|]. intros Ht. now rewrite (handle_event_answer _ Ht).
Qed.



(** A branch in which an [Exception] reached the handler's [except]
    clause: whatever the error reply's fate, split on it. *)
Ltac raised_then_replied :=
  cbn [is_Exception is_ValidationError exn_cls websocket set_websocket];
  match goal with
  | |- context [send_json ?m ?ws] => destruct (send_json m ws) as [[?|[]] ?]
  end.

(** What [handle_coding] does once the evaluator has answered and the
    answer has been sent: it reads the verdict, which may raise. *)
Lemma handle_coding_replied (event : EventData) (w : World)
      (bot : InterviewBot) (response : val) (ws' : WS) :
  interview_bot (state w) = Some bot ->
  evaluate_code (llm bot) (ques event) (code event) = inr response ->
  send_json (code_evaluation_reply response) (websocket w) = (inr tt, ws') ->
  handle_coding event w
  = match (if truthy response
           then get response (py "RESULT")
           else inr response) with
    | inr verdict =>
        (inr tt,
         if truthy verdict
         then set_state
                (set_interview_bot (Some (set_coding_event true bot))
                                   (state w))
                (set_websocket ws' w)
         else set_websocket ws' w)
    | inl e =>
        if is_Exception e
        then await_send_json (error_reply "coding_error" e)
                             (set_websocket ws' w)
        else (inl e, set_websocket ws' w)
    end.
Proof.
  intros Hbot Heval Hsend.
  unfold handle_coding, try_except, bind, get_state, call, ret, update_bot.
  rewrite Hbot, Heval.
  unfold await_send_json at 1. unfold on_websocket at 1.
  change (VDict [(py "type", VStr (py "code_evaluation")); _])
    with (code_evaluation_reply response).
  rewrite Hsend.
  destruct (truthy response).
  - destruct (get response (py "RESULT")) as [e|verdict]; [reflexivity|].
    destruct (truthy verdict); [|reflexivity].
    cbn [state set_websocket]. rewrite Hbot. reflexivity.
  - destruct (truthy response); [|reflexivity].
    cbn [state set_websocket]. rewrite Hbot. reflexivity.
Qed.

(** C8 (as the code has it). With an interview handle present, the
    question and the code go to the evaluator and its outcome is sent
    back as [code_evaluation], whatever it is. Once that reply is out,
    the code-ready signal is set exactly when the outcome is a dict whose
    [RESULT] field holds a truthy value; the handle is otherwise left as
    it was. An outcome that is falsy, or a dict without a truthy verdict,
    ends the handler there; a truthy outcome that is not a dict has no
    [get], and the handler goes on to report that as a [coding_error]. *)
Theorem coding_sets_signal (event : EventData) (w : World)
        (bot : InterviewBot) (response : val) (ws' : WS) :
  type event = py "coding" ->
  interview_bot (state w) = Some bot ->
  evaluate_code (llm bot) (ques event) (code event) = inr response ->
  send_json (code_evaluation_reply response) (websocket w) = (inr tt, ws') ->
  interview_bot (state (snd (handle_event event w)))
  = Some (if has_truthy_verdict response
          then set_coding_event true bot
          else bot)
  /\ (has_truthy_verdict response = true ->
      handle_event event w
      = (inr tt,
         set_state (set_interview_bot (Some (set_coding_event true bot))
                                      (state w))
                   (set_websocket ws' w)))
  /\ (has_truthy_verdict response = false ->
      truthy response = false \/ (exists items, response = VDict items) ->
      handle_event event w = (inr tt, set_websocket ws' w))
  /\ (truthy response = true ->
      (forall items, response <> VDict items) ->
      handle_event event w
      = await_send_json
          (error_reply "coding_error"
                       (no_attribute (type_name response) "get"))
          (set_websocket ws' w)).
Proof.
  intros Htype Hbot Heval Hsend. rewrite (handle_event_coding _ Htype).
  rewrite (handle_coding_replied _ _ Hbot Heval Hsend).
  assert (Hsent : forall m,
             interview_bot
               (state (snd (await_send_json m (set_websocket ws' w))))
             = Some bot).
  { intros m. unfold await_send_json, on_websocket.
    destruct (send_json m _) as [r ws2]. exact Hbot. }
  destruct response as [|b|z|s|l|items];
    cbn [truthy has_truthy_verdict get type_name is_Exception exn_cls
         no_attribute].
  - repeat split; intros; first [exact Hbot | discriminate].
  - destruct b; repeat split; intros;
      first [apply Hsent | exact Hbot | discriminate
            | reflexivity
            | match goal with
              | H : _ \/ _ |- _ =>
                  destruct H as [H | [? H]]; discriminate H
              end ].
  - destruct z; cbn [Z.eqb negb]; repeat split; intros;
      first [apply Hsent | exact Hbot | discriminate
            | reflexivity
            | match goal with
              | H : _ \/ _ |- _ =>
                  destruct H as [H | [? H]]; discriminate H
              end ].
  - destruct s; cbn [nonempty]; repeat split; intros;
      first [apply Hsent | exact Hbot | discriminate
            | reflexivity
            | match goal with
              | H : _ \/ _ |- _ =>
                  destruct H as [H | [? H]]; discriminate H
              end ].
  - destruct l; repeat split; intros;
      first [apply Hsent | exact Hbot | discriminate
            | reflexivity
            | match goal with
              | H : _ \/ _ |- _ =>
                  destruct H as [H | [? H]]; discriminate H
              end ].
  - assert (Hdict : forall P : Prop,
               (forall items', VDict items <> VDict items') -> P).
    { intros P H. exfalso. exact (H items eq_refl). }
    destruct items as [|item items].
    + cbn [lookup truthy].
      repeat split; intros;
        first [exact Hbot | discriminate | reflexivity | eapply Hdict; eassumption].
    + destruct (lookup (py "RESULT") (item :: items)) as [verdict|];
        cbn [truthy]; [destruct (truthy verdict)|];
        cbn [fst snd state set_state interview_bot set_interview_bot
             set_websocket];
        repeat split; intros;
          first [exact Hbot | discriminate | reflexivity
                | eapply Hdict; eassumption].
Qed.

(** C10. When the pipeline returns the empty transcript for an audio
    message, the [transcription_complete] reply is sent and the session
    state, with the pending answer and the answer-ready signal of its
    handle, is the one the handler found. More generally the handler
    changes the session state only by storing a non-empty transcript in
    an existing handle and setting its answer-ready signal. *)
Theorem empty_transcript_not_submitted (event : EventData) (w : World) :
  (forall wav_path,
      type event = py "audio" ->
      audio_data event = Some wav_path ->
      wav_path <> [] ->
      fst (transcribe_audio_with_overlap wav_path) = inr [] ->
      state (snd (handle_event event w)) = state w
      /\ (forall ws',
            send_json (transcription_complete_reply []) (websocket w)
            = (inr tt, ws') ->
            handle_event event w = (inr tt, set_websocket ws' w)))
  /\ (state (snd (handle_audio_transcription event w)) <> state w ->
      exists wav_path transcription bot,
        audio_data event = Some wav_path
        /\ fst (transcribe_audio_with_overlap wav_path) = inr transcription
        /\ transcription <> []
        /\ interview_bot (state w) = Some bot
        /\ state (snd (handle_audio_transcription event w))
           = set_interview_bot
               (Some (set_answer_event true
                        (set_current_answer (Some transcription) bot)))
               (state w)).
Proof.
  split.
  - intros wav_path Htype Hdata Hpath Hempty.
    rewrite (handle_event_audio _ Htype).
    unfold handle_audio_transcription, try_except, bind, get_state, call,
      await_send_json, on_websocket, ret, update_bot.
    rewrite Hdata, Hempty.
    destruct wav_path as [|c wav_path]; [congruence|].
    change (VDict [(py "type", VStr (py "transcription_complete")); _])
      with (transcription_complete_reply []).
    split.
    + destruct (send_json (transcription_complete_reply []) (websocket w))
        as [[e|[]] ws'].
      * destruct (is_Exception e); [raised_then_replied|];
          reflexivity.
      * cbn [nonempty]. reflexivity.
    + intros ws' Hsend. rewrite Hsend. reflexivity.
  - unfold handle_audio_transcription, try_except, bind, get_state, call,
      await_send_json, on_websocket, ret, update_bot.
    intros Hchanged.
    destruct (audio_data event) as [[|c wav_path]|] eqn:Hdata.
    + exfalso. apply Hchanged.
      destruct (send_json _ (websocket w)) as [[e|[]] ws'];
        [destruct (is_Exception e); [raised_then_replied|]|]; reflexivity.
    + destruct (fst (transcribe_audio_with_overlap (c :: wav_path)))
        as [e|transcription] eqn:Hrun.
      * exfalso. apply Hchanged.
        destruct (is_Exception e); [raised_then_replied|]; reflexivity.
      * destruct (send_json _ (websocket w)) as [[e|[]] ws'].
        { exfalso. apply Hchanged.
          destruct (is_Exception e); [raised_then_replied|]; reflexivity. }
        cbn [state set_websocket] in *.
        destruct transcription as [|t transcription].
        { exfalso. apply Hchanged. reflexivity. }
        cbn [nonempty] in *.
        destruct (interview_bot (state w)) as [bot|] eqn:Hbot.
        { exists (c :: wav_path), (t :: transcription), bot.
          cbn [state set_state set_websocket interview_bot set_interview_bot].
          rewrite Hbot.
          cbn [snd state set_state set_websocket interview_bot
               set_interview_bot].
          repeat split; first [assumption | reflexivity | discriminate]. }
        exfalso. apply Hchanged. reflexivity.
    + exfalso. apply Hchanged.
      destruct (send_json _ (websocket w)) as [[e|[]] ws'];
        [destruct (is_Exception e); [raised_then_replied|]|]; reflexivity.
Qed.

Lemma message_loop_continue (fuel : nat) (w w' : World) :
  receive_and_handle w = (inr tt, w') ->
  message_loop (S fuel) w = message_loop fuel w'.
Proof. intros H. cbn [message_loop]. now rewrite H. Qed.

Lemma message_loop_unwound (fuel : nat) (w w' : World) (e : exn) :
  receive_and_handle w = (inl e, w') ->
  message_loop (S fuel) w = Some (e, w').
Proof. intros H. cbn [message_loop]. now rewrite H. Qed.

(** C2 (as the code has it). A message that fails validation is
    answered with an [error] reply and the loop goes on to the next
    message. The coding and audio handlers catch the exceptions of their
    own work and answer with [coding_error] and [transcription_error].
    Any other exception that leaves a handler is not caught by the turn:
    it ends the loop. *)
Theorem message_errors (w : World) :
  (forall (data : val) (e : exn) (ws1 ws2 : WS),
      receive_json (websocket w) = (inr data, ws1) ->
      validate data = inl e ->
      is_ValidationError e = true ->
      send_json (error_reply "error" e) ws1 = (inr tt, ws2) ->
      receive_and_handle w = (inr tt, set_websocket ws2 w)
      /\ forall fuel,
           message_loop (S fuel) w = message_loop fuel (set_websocket ws2 w))
  /\ (forall (event : EventData) (bot : InterviewBot) (e : exn) (ws' : WS),
        interview_bot (state w) = Some bot ->
        evaluate_code (llm bot) (ques event) (code event) = inl e ->
        is_Exception e = true ->
        send_json (error_reply "coding_error" e) (websocket w) = (inr tt, ws') ->
        handle_coding event w = (inr tt, set_websocket ws' w))
  /\ (forall (event : EventData) (wav_path : str) (e : exn) (ws' : WS),
        audio_data event = Some wav_path ->
        wav_path <> [] ->
        fst (transcribe_audio_with_overlap wav_path) = inl e ->
        is_Exception e = true ->
        send_json (error_reply "transcription_error" e) (websocket w)
        = (inr tt, ws') ->
        handle_audio_transcription event w = (inr tt, set_websocket ws' w))
  /\ (forall (data : val) (event : EventData) (e : exn) (ws1 : WS)
             (w' : World),
        receive_json (websocket w) = (inr data, ws1) ->
        validate data = inr event ->
        handle_event event (set_websocket ws1 w) = (inl e, w') ->
        is_ValidationError e = false ->
        receive_and_handle w = (inl e, w')
        /\ forall fuel, message_loop (S fuel) w = Some (e, w')).
Proof.
  split; [|split; [|split]].
  - intros data e ws1 ws2 Hrecv Hval He Hsend.
    assert (H : receive_and_handle w = (inr tt, set_websocket ws2 w)).
    { unfold receive_and_handle, try_except, bind, await_receive_json,
        await_send_json, on_websocket, call.
      rewrite Hrecv, Hval, He.
      change (VDict _) with (error_reply "error" e).
      cbn [websocket set_websocket]. rewrite Hsend. reflexivity. }
    split; [exact H|]. intros fuel. now apply message_loop_continue.
  - intros event bot e ws' Hbot Heval He Hsend.
    unfold handle_coding, try_except, bind, get_state, call, await_send_json,
      on_websocket.
    rewrite Hbot, Heval, He.
    change (VDict _) with (error_reply "coding_error" e).
    rewrite Hsend. reflexivity.
  - intros event wav_path e ws' Hdata Hpath Hrun He Hsend.
    unfold handle_audio_transcription, try_except, bind, call,
      await_send_json, on_websocket.
    destruct wav_path as [|c wav_path]; [congruence|].
    rewrite Hdata, Hrun, He.
    change (VDict _) with (error_reply "transcription_error" e).
    rewrite Hsend. reflexivity.
  - intros data event e ws1 w' Hrecv Hval Hraise He.
    assert (H : receive_and_handle w = (inl e, w')).
    { rewrite (receive_and_handle_event _ Hrecv Hval), Hraise, He.
      reflexivity. }
    split; [exact H|]. intros fuel. now apply message_loop_unwound.
Qed.

End ServerFacts.

(** *** The handlers on concrete connections *)

Lemma answer_without_interview_witness :
  interview_bot (state (connection accepting (wire [] []))) = None
  /\ handle_event (event_of "answer" (Some (py "42")) None None)
                  (connection accepting (wire [] []))
     = (inr tt, connection accepting (wire [] [])).
Proof.
  split; [reflexivity|].
  exact (proj2 (@answer_without_interview accepting _
                  (event_of "answer" (Some (py "42")) None None)
                  (connection accepting (wire [] [])) eq_refl) eq_refl).
Defined.


(** C8, as stated, fails: an outcome whose verdict field is [False] has
    a verdict field, and the code-ready signal stays unset (the session
    state is the one found; only the reply went out). *)
Lemma false_verdict_sets_no_signal :
  has_verdict_field verdict_false = true
  /\ @evaluate_code rejecting tt (Some (py "Q1. Print Hello World"))
                    (Some (py "print(1)"))
     = inr verdict_false
  /\ handle_event (event_of "coding" (Some (py "print(1)"))
                            (Some (py "Q1. Print Hello World")) None)
                  (interviewing rejecting (wire [] []))
     = (inr tt,
        interviewing rejecting (wire [] [code_evaluation_reply verdict_false]))
  /\ option_map (@coding_event rejecting)
                (interview_bot
                   (state (interviewing rejecting
                             (wire [] [code_evaluation_reply verdict_false]))))
     = Some false.
Proof. repeat split. Qed.

Lemma coding_sets_signal_witness :
  handle_event (event_of "coding" (Some (py "print('Hello World')"))
                         (Some (py "Q1. Print Hello World")) None)
               (interviewing accepting (wire [] []))
  = (inr tt,
     set_state
       (set_interview_bot
          (Some (set_coding_event true (new_InterviewBot [] [] VNone)))
          (state (interviewing accepting (wire [] []))))
       (set_websocket (ext := accepting) (wire [] [code_evaluation_reply verdict_pass])
                      (interviewing accepting (wire [] []))))
  /\ handle_event (event_of "coding" (Some (py "print(1)"))
                            (Some (py "Q1. Print Hello World")) None)
                  (interviewing rejecting (wire [] []))
     = (inr tt,
        interviewing rejecting (wire [] [code_evaluation_reply verdict_false]))
  /\ handle_event (event_of "coding" (Some (py "print(1)"))
                            (Some (py "Q1. Print Hello World")) None)
                  (interviewing chatty (wire [] []))
     = (inr tt,
        interviewing chatty
          (wire [] [code_evaluation_reply (VStr (py "looks fine"));
                    error_reply "coding_error"
                      (Exn AttributeError
                           (py "'str' object has no attribute 'get'"))])).
Proof.
  split; [|split].
  - exact (proj1 (proj2 (@coding_sets_signal accepting _
                  (event_of "coding" (Some (py "print('Hello World')"))
                            (Some (py "Q1. Print Hello World")) None)
                  (interviewing accepting (wire [] []))
                  (new_InterviewBot [] [] VNone) verdict_pass
                  (wire [] [code_evaluation_reply verdict_pass])
                  eq_refl eq_refl eq_refl eq_refl)) eq_refl).
  - exact (proj1 (proj2 (proj2 (@coding_sets_signal rejecting _
                  (event_of "coding" (Some (py "print(1)"))
                            (Some (py "Q1. Print Hello World")) None)
                  (interviewing rejecting (wire [] []))
                  (new_InterviewBot [] [] VNone) verdict_false
                  (wire [] [code_evaluation_reply verdict_false])
                  eq_refl eq_refl eq_refl eq_refl))) eq_refl
                 (or_intror (ex_intro _ _ eq_refl))).
  - refine (proj2 (proj2 (proj2 (@coding_sets_signal chatty _
                  (event_of "coding" (Some (py "print(1)"))
                            (Some (py "Q1. Print Hello World")) None)
                  (interviewing chatty (wire [] []))
                  (new_InterviewBot [] [] VNone) (VStr (py "looks fine"))
                  (wire [] [code_evaluation_reply (VStr (py "looks fine"))])
                  eq_refl eq_refl eq_refl eq_refl))) eq_refl _).
    intros items. discriminate.
Defined.

Lemma empty_transcript_not_submitted_witness :
  fst (@transcribe_audio_with_overlap no_audio (py "answer.wav")) = inr []
  /\ handle_event
       (event_of "audio" None None (Some (py "answer.wav")))
       (interviewing accepting (wire [] []))
     = (inr tt,
        set_websocket (ext := accepting) (wire [] [transcription_complete_reply []])
                      (interviewing accepting (wire [] []))).
Proof.
  split; [reflexivity|].
  refine (proj2 (proj1 (@empty_transcript_not_submitted accepting _
                          (event_of "audio" None None (Some (py "answer.wav")))
                          (interviewing accepting (wire [] [])))
                       (py "answer.wav") eq_refl eq_refl _ eq_refl)
                (wire [] [transcription_complete_reply []]) eq_refl).
  discriminate.
Defined.

(** C2, as stated, fails: when the analysis raises while a
    [get_analysis] message is handled, no reply is sent, the turn ends
    with the exception, and the endpoint returns with the next message
    unread. *)
Lemma analysis_failure_ends_connection :
  receive_and_handle
    (connection failing
       (wire [message "get_analysis" [];
         message "answer" [(py "code", VStr (py "42"))]] []))
  = (inl timeout,
     connection failing
       (wire [message "answer" [(py "code", VStr (py "42"))]] []))
  /\ websocket_endpoint
       (ext := failing) 2
       (wire [message "get_analysis" [];
         message "answer" [(py "code", VStr (py "42"))]] [])
     = Some (inr tt,
             connection failing
               (wire [message "answer" [(py "code", VStr (py "42"))]] [])).
Proof. split; reflexivity. Qed.

Lemma message_errors_witness :
  receive_and_handle
    (connection failing (wire [VDict [(py "code", VStr (py "42"))]] []))
  = (inr tt,
     connection failing
       (wire [] [error_reply "error"
               (Exn ValidationError (py "type: field required"))]))
  /\ handle_coding (event_of "coding" (Some (py "print(1)")) None None)
                   (interviewing failing (wire [] []))
     = (inr tt,
        interviewing failing (wire [] [error_reply "coding_error" timeout]))
  /\ handle_audio_transcription
       (event_of "audio" None None (Some (py "answer.wav")))
       (connection deaf (wire [] []))
     = (inr tt,
        connection deaf
          (wire [] [error_reply "transcription_error"
                  (Exn RuntimeError
                       (py "Error during audio transcription: 503 failed to connect to all addresses"))]))
  /\ message_loop 1 (connection failing (wire [message "get_analysis" []] []))
     = Some (timeout, connection failing (wire [] [])).
Proof.
  split; [|split; [|split]].
  - exact (proj1 (proj1 (@message_errors failing _
             (connection failing (wire [VDict [(py "code", VStr (py "42"))]] [])))
             (VDict [(py "code", VStr (py "42"))])
             (Exn ValidationError (py "type: field required"))
             (wire [] [])
             (wire [] [error_reply "error"
                     (Exn ValidationError (py "type: field required"))])
             eq_refl eq_refl eq_refl eq_refl)).
  - exact (proj1 (proj2 (@message_errors failing _
             (interviewing failing (wire [] []))))
             (event_of "coding" (Some (py "print(1)")) None None)
             (new_InterviewBot [] [] VNone) timeout
             (wire [] [error_reply "coding_error" timeout])
             eq_refl eq_refl eq_refl eq_refl).
  - refine (proj1 (proj2 (proj2 (@message_errors deaf _
              (connection deaf (wire [] [])))))
              (event_of "audio" None None (Some (py "answer.wav")))
              (py "answer.wav")
              (Exn RuntimeError
                 (py "Error during audio transcription: 503 failed to connect to all addresses"))
              (wire [] [error_reply "transcription_error"
                      (Exn RuntimeError
                         (py "Error during audio transcription: 503 failed to connect to all addresses"))])
              eq_refl _ eq_refl eq_refl eq_refl).
    discriminate.
  - exact (proj2 (proj2 (proj2 (proj2 (@message_errors failing _
             (connection failing (wire [message "get_analysis" []] [])))))
             (message "get_analysis" [])
             (event_of "get_analysis" None None None)
             timeout (wire [] [])
             (connection failing (wire [] []))
             eq_refl eq_refl eq_refl eq_refl) 0).
Defined.

(** * Further properties *)

(** ** Splitting, joining and trimming *)

Lemma split_from_word (x w : str) :
  Forall (fun c => isspace c = false) x ->
  w ++ x <> [] ->
  split_from w x = [w ++ x].
Proof.
  revert w; induction x as [|c x IH]; intros w Hx Hne; simpl.
  - rewrite app_nil_r in *. destruct w; [congruence | reflexivity].
  - inversion Hx as [|? ? Hc Hx']; subst. rewrite Hc.
    rewrite IH; auto.
    + now rewrite <- app_assoc.
    + destruct w; discriminate.
Qed.

Lemma split_from_space (w a b : str) (sp : N) :
  isspace sp = true ->
  split_from w (a ++ sp :: b) = split_from w a ++ split b.
Proof.
  intros Hsp. revert w; induction a as [|c a IH]; intros w; simpl.
  - rewrite Hsp. destruct w; reflexivity.
  - destruct (isspace c).
    + destruct w; simpl; now rewrite IH.
    + apply IH.
Qed.

Lemma split_space (a b : str) :
  split (a ++ py " " ++ b) = split a ++ split b.
Proof. apply (@split_from_space [] a b 32%N). reflexivity. Qed.

Lemma split_from_words (s w : str) :
  Forall (fun c => isspace c = false) w ->
  Forall is_word (split_from w s).
Proof.
  revert w; induction s as [|c s IH]; intros w Hw; simpl.
  - destruct w; constructor; [|constructor]. split; [discriminate | exact Hw].
  - destruct (isspace c) eqn:Hc.
    + destruct w.
      * apply IH. constructor.
      * constructor; [split; [discriminate | exact Hw] | apply IH; constructor].
    + apply IH. apply Forall_app. split; [exact Hw | now repeat constructor].
Qed.

Lemma split_words (s : str) : Forall is_word (split s).
Proof. apply split_from_words. constructor. Qed.

Lemma split_word (x : str) : is_word x -> split x = [x].
Proof. intros [Hne Hx]. now apply (@split_from_word x []). Qed.

(** Words joined by single spaces split back into the same words. *)
Lemma split_join (ws : list str) :
  Forall is_word ws -> split (join (py " ") ws) = ws.
Proof.
  induction ws as [|x ws IH]; intros H; [reflexivity|].
  inversion H as [|? ? Hx Hws]; subst.
  destruct ws as [|y ws].
  - simpl. now apply split_word.
  - change (join (py " ") (x :: y :: ws))
      with (x ++ py " " ++ join (py " ") (y :: ws)).
    rewrite split_space, split_word, IH by assumption. reflexivity.
Qed.

Lemma scan_overlap_none (fw lw : str) (range : list nat) :
  (forall j, In j range -> startswith fw (skipn j lw) = false) ->
  scan_overlap fw lw range = None.
Proof.
  induction range as [|j range IH]; simpl; intros Hb; [reflexivity|].
  rewrite (Hb j) by auto. apply IH; auto.
Qed.

Lemma scan_overlap_some (fw lw : str) (range : list nat) (i : nat) :
  scan_overlap fw lw range = Some i ->
  In i range /\ startswith fw (skipn i lw) = true.
Proof.
  induction range as [|j range IH]; simpl; [discriminate|].
  destruct (startswith fw (skipn j lw)) eqn:E.
  - intros H; inversion H; subst. auto.
  - intros H. destruct (IH H). auto.
Qed.

(** ** The merger, case by case *)

(** With words on both sides the merger is decided by the last word of
    [previous] and the first word of [current]. *)
Lemma merge_with_words (previous current : str) (pw cw : list str)
      (lw fw : str) :
  split previous = pw ++ [lw] ->
  split current = fw :: cw ->
  merge_with_overlap previous current
  = if eqb lw fw
    then previous ++ py " " ++ join (py " ") cw
    else match scan_overlap fw lw (seq 0 (length lw)) with
         | Some i => join (py " ") (pw ++ [firstn i lw ++ fw] ++ cw)
         | None => previous ++ py " " ++ current
         end.
Proof.
  intros Hp Hc. unfold merge_with_overlap. rewrite Hp, Hc.
  destruct (pw ++ [lw]) eqn:Hw; [destruct pw; discriminate|].
  rewrite <- Hw. cbv zeta. simpl hd. simpl tl.
  rewrite last_snoc, removelast_last. reflexivity.
Qed.

(** X1. When the last word of [previous] is the first word of
    [current], the result is [previous], a space, and the other words of
    [current] joined by single spaces; word by word, the duplicate is
    dropped once. *)
Theorem merge_exact_match (previous current : str) (pw cw : list str)
        (w : str) :
  split previous = pw ++ [w] ->
  split current = w :: cw ->
  merge_with_overlap previous current
  = previous ++ py " " ++ join (py " ") cw
  /\ split (merge_with_overlap previous current) = pw ++ [w] ++ cw.
Proof.
  intros Hp Hc. rewrite (@merge_with_words _ _ _ _ _ _ Hp Hc).
  replace (eqb w w) with true by (symmetry; now apply eqb_eq).
  split; [reflexivity|].
  rewrite split_space, Hp, split_join, <- app_assoc; [reflexivity|].
  pose proof (split_words current) as H. rewrite Hc in H.
  now inversion H.
Qed.

Lemma merge_exact_match_witness :
  merge_with_overlap (py "I went to") (py "to  market   today")
  = py "I went to market today"
  /\ split (merge_with_overlap (py "I went to") (py "to  market   today"))
     = [py "I"; py "went"; py "to"; py "market"; py "today"].
Proof.
  exact (@merge_exact_match (py "I went to") (py "to  market   today")
           [py "I"; py "went"] [py "market"; py "today"] (py "to")
           eq_refl eq_refl).
Defined.

(** X2. When the boundary words differ and no non-empty suffix of the
    last word of [previous] starts the first word of [current], the two
    texts are concatenated with a space and no word is dropped or
    changed. *)
Theorem merge_no_overlap (previous current : str) (pw cw : list str)
        (lw fw : str) :
  split previous = pw ++ [lw] ->
  split current = fw :: cw ->
  lw <> fw ->
  (forall kept overlap,
      lw = kept ++ overlap -> overlap <> [] ->
      ~ exists rest, fw = overlap ++ rest) ->
  merge_with_overlap previous current = previous ++ py " " ++ current
  /\ split (merge_with_overlap previous current)
     = split previous ++ split current.
Proof.
  intros Hp Hc Hne Hnone. rewrite (@merge_with_words _ _ _ _ _ _ Hp Hc).
  rewrite (eqb_neq Hne), scan_overlap_none.
  - split; [reflexivity | apply split_space].
  - intros j Hj. apply in_seq in Hj.
    destruct (startswith fw (skipn j lw)) eqn:E; [|reflexivity].
    exfalso. apply startswith_prefix in E.
    apply (Hnone (firstn j lw) (skipn j lw)); auto.
    + symmetry. apply firstn_skipn.
    + intros H0. apply (f_equal (@length _)) in H0.
      rewrite length_skipn in H0. simpl in H0. lia.
Qed.

Lemma merge_no_overlap_witness :
  merge_with_overlap (py "good morning") (py "everyone here")
  = py "good morning everyone here".
Proof.
  refine (proj1 (@merge_no_overlap (py "good morning") (py "everyone here")
                   [py "good"] [py "here"] (py "morning") (py "everyone")
                   eq_refl eq_refl _ _)).
  - discriminate.
  - intros kept overlap H Hne [rest Hrest].
    destruct overlap as [|c overlap]; [congruence|].
    assert (Hc : c = 101%N) by (inversion Hrest; reflexivity).
    subst c.
    assert (Hin : In 101%N (py "morning")).
    { rewrite H. apply in_or_app. right. left. reflexivity. }
    simpl in Hin. intuition discriminate.
Defined.

(** X3. Whatever the inputs, the merged text keeps, in order, every word
    of [previous] but the last and every word of [current] but the
    first; between them stand at most two words (the two boundary words,
    or their fusion, or the one they both are). So a merge drops at most
    one word. *)
Theorem merge_keeps_words (previous current : str) :
  exists mid : list str,
    split (merge_with_overlap previous current)
    = removelast (split previous) ++ mid ++ tl (split current)
    /\ length mid <= 2
    /\ length (split previous) + length (split current)
       <= S (length (split (merge_with_overlap previous current))).
Proof.
  pose proof (split_words previous) as Wp.
  pose proof (split_words current) as Wc.
  destruct (split previous) as [|p0 ps] eqn:Hp.
  { unfold merge_with_overlap. rewrite Hp.
    rewrite split_space, Hp. cbn [app removelast length].
    destruct (split current) as [|fw cw].
    - exists []. simpl. split; [reflexivity | split; lia].
    - exists [fw]. simpl. unfold str in *.
      split; [reflexivity | split; lia]. }
  destruct (@exists_last _ (p0 :: ps) ltac:(discriminate)) as (pw & lw & Hpw).
  rewrite Hpw in *. clear p0 ps Hpw.
  rewrite removelast_last.
  apply Forall_app in Wp. destruct Wp as [Wpw Wlw].
  inversion Wlw as [|? ? [Hlw_ne Hlw] _]; subst.
  destruct (split current) as [|fw cw] eqn:Hc.
  { assert (Hm : merge_with_overlap previous current
                 = previous ++ py " " ++ current).
    { unfold merge_with_overlap. rewrite Hp, Hc.
      now destruct (pw ++ [lw]). }
    rewrite Hm, split_space, Hp, Hc. exists [lw].
    rewrite !app_nil_r, !length_app. simpl. unfold str in *.
    split; [reflexivity | split; lia]. }
  inversion Wc as [|? ? Wfw Wcw]; subst.
  rewrite (@merge_with_words _ _ _ _ _ _ Hp Hc). cbn [tl].
  destruct (eqb lw fw) eqn:E.
  - apply eqb_eq in E. subst fw. exists [lw].
    rewrite split_space, Hp, split_join, <- app_assoc by assumption.
    rewrite !length_app. simpl. unfold str in *.
    split; [reflexivity | split; lia].
  - destruct (scan_overlap fw lw (seq 0 (length lw))) as [i|] eqn:Hscan.
    + exists [firstn i lw ++ fw]. rewrite split_join.
      * rewrite !length_app. simpl. unfold str in *.
        split; [reflexivity | split; lia].
      * apply Forall_app. split; [exact Wpw|]. constructor; [|exact Wcw].
        destruct Wfw as [Hfw_ne Hfw]. split.
        { destruct (firstn i lw); destruct fw; simpl; congruence. }
        apply Forall_app. split; [|exact Hfw].
        rewrite <- (firstn_skipn i lw) in Hlw.
        apply Forall_app in Hlw. tauto.
    + exists [lw; fw]. rewrite split_space, Hp, Hc, <- app_assoc.
      rewrite !length_app. simpl. unfold str in *.
      split; [reflexivity | split; lia].
Qed.

(** ** The windows of a buffer *)

Lemma firstn_plus (A : Type) (a b : nat) (l : list A) :
  firstn (a + b) l = firstn a l ++ firstn b (skipn a l).
Proof.
  revert l; induction a as [|a IH]; intros l; [reflexivity|].
  destruct l as [|x l]; simpl.
  - now rewrite firstn_nil.
  - now rewrite IH.
Qed.

(** A window in terms of list positions. *)
Lemma window_positions (audio : bytes) (k : nat) :
  window audio k
  = firstn (Nat.min (N.to_nat chunk_duration + N.to_nat overlap_duration)
                    (length audio - k * N.to_nat chunk_duration))
           (skipn (k * N.to_nat chunk_duration) audio).
Proof.
  unfold window, slice, len, chunk_duration, overlap_duration.
  f_equal; [|f_equal]; lia.
Qed.

(** X4. Window [k] of a buffer that reaches it holds
    [min(176000, len - 160000 k)] bytes: never none, never more than a
    window and its overlap. *)
Theorem window_length (audio : bytes) (k : nat) :
  k < window_count audio ->
  len (window audio k)
  = N.min (chunk_duration + overlap_duration)
          (len audio - N.of_nat k * chunk_duration)
  /\ (0 < len (window audio k) <= chunk_duration + overlap_duration)%N.
Proof.
  intros Hk. apply window_count_lt in Hk.
  unfold len in *. rewrite window_positions, length_firstn, length_skipn.
  unfold chunk_duration, overlap_duration in *. lia.
Qed.

Lemma window_length_witness :
  len (window (Fixtures.silence 200000) 1) = 40000%N
  /\ (0 < len (window (Fixtures.silence 200000) 1) <= 176000)%N.
Proof.
  assert (H : 1 < window_count (Fixtures.silence 200000)).
  { apply window_count_lt. rewrite len_silence. reflexivity. }
  pose proof (@window_length (Fixtures.silence 200000) 1 H) as W.
  rewrite len_silence in W. exact W.
Defined.

(** X5. Every byte of the buffer is submitted: the first
    [chunk_duration] bytes of the windows, put end to end, are the
    buffer. *)
Theorem windows_cover (audio : bytes) :
  concat (map (firstn (N.to_nat chunk_duration)) (windows audio)) = audio.
Proof.
  assert (Hn : forall n,
             concat (map (firstn (N.to_nat chunk_duration))
                         (map (window audio) (seq 0 n)))
             = firstn (n * N.to_nat chunk_duration) audio).
  { induction n as [|n IH]; [reflexivity|].
    rewrite seq_S, !map_app, concat_app. unfold bytes in *.
    rewrite IH. cbn [map concat plus].
    rewrite app_nil_r, window_positions, firstn_firstn.
    replace (S n * N.to_nat chunk_duration)
      with (n * N.to_nat chunk_duration + N.to_nat chunk_duration) by lia.
    rewrite firstn_plus. f_equal.
    set (rest := skipn (n * N.to_nat chunk_duration) audio).
    assert (Hrest : length rest = length audio - n * N.to_nat chunk_duration)
      by apply length_skipn.
    rewrite <- Hrest.
    destruct (Nat.le_gt_cases (N.to_nat chunk_duration) (length rest)).
    - f_equal. lia.
    - rewrite !firstn_all2 by lia. reflexivity. }
  unfold windows. rewrite Hn. apply firstn_all2.
  assert (H : ~ window_count audio < window_count audio) by lia.
  rewrite <- window_count_lt in H. unfold len, chunk_duration in *. lia.
Qed.

(** X6. What a window holds beyond its first [chunk_duration] bytes is
    read again at the head of the next window. *)
Theorem windows_overlap (audio : bytes) (k : nat) :
  skipn (N.to_nat chunk_duration) (window audio k)
  = firstn (length (window audio k) - N.to_nat chunk_duration)
           (window audio (S k)).
Proof.
  rewrite !window_positions, length_firstn, length_skipn.
  rewrite skipn_firstn_comm, skipn_skipn, firstn_firstn.
  replace (N.to_nat chunk_duration + k * N.to_nat chunk_duration)
    with (S k * N.to_nat chunk_duration) by lia.
  f_equal. unfold chunk_duration, overlap_duration. lia.
Qed.

(** ** Trimming *)

Lemma lstrip_split (s : str) :
  exists pre, s = pre ++ lstrip s /\ is_blank pre.
Proof.
  induction s as [|c s (pre & Hs & Hpre)]; simpl.
  - exists []. split; [reflexivity | constructor].
  - destruct (isspace c) eqn:Hc.
    + exists (c :: pre). split; [simpl; congruence | now constructor].
    + exists []. split; [reflexivity | constructor].
Qed.

Lemma lstrip_head (s : str) (c : N) (rest : str) :
  lstrip s = c :: rest -> isspace c = false.
Proof.
  induction s as [|d s IH]; simpl; [discriminate|].
  destruct (isspace d) eqn:Hd; [exact IH|].
  intros H. inversion H; subst. exact Hd.
Qed.

(** What [strip] returns: the text between a blank prefix and a blank
    suffix, itself without whitespace at either end. *)
Lemma strip_spec (s : str) :
  (exists pre post,
      s = pre ++ strip s ++ post /\ is_blank pre /\ is_blank post)
  /\ (forall c rest, strip s = c :: rest -> isspace c = false)
  /\ (forall rest c, strip s = rest ++ [c] -> isspace c = false).
Proof.
  destruct (lstrip_split s) as (pre & Hs & Hpre).
  destruct (lstrip_split (rev (lstrip s))) as (tsop & Hr & Htsop).
  assert (Hl : lstrip s = strip s ++ rev tsop).
  { unfold strip, rstrip. rewrite <- rev_app_distr, <- Hr.
    now rewrite rev_involutive. }
  assert (Hend : forall rest c, strip s = rest ++ [c] -> isspace c = false).
  { intros rest c H. unfold strip, rstrip in H.
    apply (f_equal (@rev _)) in H.
    rewrite rev_involutive, rev_app_distr in H. simpl in H.
    eapply lstrip_head. exact H. }
  split; [|split; [|exact Hend]].
  - exists pre, (rev tsop). rewrite <- Hl. split; [exact Hs|].
    split; [exact Hpre | now apply Forall_rev].
  - intros c rest H. rewrite H in Hl. simpl in Hl.
    eapply lstrip_head. exact Hl.
Qed.

(** ** The pipeline, beyond the claims *)

Section PipelineMore.
Context {client : SpeechClient}.

(** X7. When the file cannot be read, no chunk is submitted and the
    error leaves the pipeline: as a [RuntimeError] carrying its text when
    it is an [Exception], as it is otherwise. *)
Theorem transcribe_unreadable (wav_path : str) (e : exn) :
  read_file wav_path = inl e ->
  transcribe_audio_with_overlap wav_path = (inl (reraise e), [])
  /\ (is_Exception e = true ->
      reraise e
      = Exn RuntimeError
            (py "Error during audio transcription: " ++ exn_str e))
  /\ (is_Exception e = false -> reraise e = e).
Proof.
  intros Hread. unfold transcribe_audio_with_overlap, reraise.
  rewrite Hread. repeat split; now intros ->.
Qed.

(** The text of a response is its best alternatives, in order; lower
    ranked alternatives are not looked at. *)
Lemma top_transcripts_best (rs : list SpeechRecognitionResult)
      (ts : list str) :
  top_transcripts rs = inr ts
  <-> map (fun r => option_map transcript (hd_error (alternatives r))) rs
      = map Some ts.
Proof.
  revert ts; induction rs as [|r rs IH]; intros ts; simpl.
  - split.
    + intros H; inversion H; reflexivity.
    + destruct ts; [reflexivity | discriminate].
  - destruct (alternatives r) as [|best others]; simpl.
    + split; [discriminate | destruct ts; discriminate].
    + destruct (top_transcripts rs) as [e|ts'] eqn:E.
      * split; [discriminate|]. destruct ts as [|t ts]; [discriminate|].
        simpl. intros H. inversion H as [[Ht Hts]].
        apply IH in Hts. discriminate.
      * split.
        { intros H; inversion H; subst. simpl. f_equal.
          now apply IH. }
        destruct ts as [|t ts]; [discriminate|]. simpl.
        intros H. inversion H as [[Ht Hts]]. apply IH in Hts.
        inversion Hts; subst. reflexivity.
Qed.

Lemma top_transcripts_missing (rs : list SpeechRecognitionResult) :
  Exists (fun r => alternatives r = []) rs ->
  top_transcripts rs = inl (Exn IndexError (py "list index out of range")).
Proof.
  induction rs as [|r rs IH]; intros H; [inversion H|]. simpl.
  destruct (alternatives r) as [|best others] eqn:Ha; [reflexivity|].
  inversion H as [? ? H0|? ? H0]; subst; [congruence|].
  now rewrite IH.
Qed.

(** X8. The text of a window is made of the top-ranked alternative of
    each result of the response, joined by single spaces; two responses
    that agree on those give the same text. *)
Theorem chunk_text_uses_best (k : nat) (chunk : bytes)
        (response : RecognizeResponse) (ts : list str) :
  recognize k chunk = inr response ->
  map (fun r => option_map transcript (hd_error (alternatives r)))
      (SpeechToText.results response)
  = map Some ts ->
  chunk_transcription_of k chunk = inr (join (py " ") ts).
Proof.
  intros Hrec Hbest. unfold chunk_transcription_of. rewrite Hrec.
  apply top_transcripts_best in Hbest. now rewrite Hbest.
Qed.

(** X9. A response in which some result has no alternative makes the
    run fail at that window, provided the windows before it went
    through: [alternatives[0]] raises, and the pipeline re-raises it as
    a [RuntimeError]. *)
Theorem transcribe_no_alternative (wav_path : str) (audio : bytes) (k : nat)
        (response : RecognizeResponse) :
  read_file wav_path = inr audio ->
  k < window_count audio ->
  (forall j, j < k ->
     exists f, chunk_transcription_of j (window audio j) = inr f) ->
  recognize k (window audio k) = inr response ->
  Exists (fun r => alternatives r = []) (SpeechToText.results response) ->
  transcribe_audio_with_overlap wav_path
  = (inl (Exn RuntimeError
              (py "Error during audio transcription: list index out of range")),
     firstn (S k) (windows audio)).
Proof.
  intros Hread Hk Hbefore Hrec Hmissing.
  rewrite (transcribe_audio_with_overlap_windows _ Hread).
  destruct (@first_failure _ (windows audio) 0 k
              (Exn IndexError (py "list index out of range")))
    as [H1 H2].
  - unfold windows. now rewrite length_map, length_seq.
  - intros j Hj. rewrite window_nth by lia. apply Hbefore. exact Hj.
  - rewrite window_nth by exact Hk. simpl.
    unfold chunk_transcription_of. rewrite Hrec.
    now rewrite top_transcripts_missing.
  - unfold fragments. rewrite H1, H2. reflexivity.
Qed.

(** X10. A run that returns a transcript made exactly
    ceil(len / 160000) calls: none for an empty buffer, and otherwise
    the least [n] with [len <= 160000 n]. *)
Theorem transcribe_call_count (wav_path : str) (audio : bytes) (text : str) :
  read_file wav_path = inr audio ->
  fst (transcribe_audio_with_overlap wav_path) = inr text ->
  let n := N.of_nat (length (snd (transcribe_audio_with_overlap wav_path))) in
  (len audio <= n * chunk_duration)%N
  /\ (n * chunk_duration < len audio + chunk_duration)%N.
Proof.
  intros Hread Hok n. subst n.
  rewrite (transcribe_audio_with_overlap_windows _ Hread) in *.
  cbn [fst snd] in *.
  destruct (fragments audio) as [e|fs] eqn:E; [discriminate|].
  rewrite (submitted_all _ _ E). unfold windows.
  rewrite length_map, length_seq. unfold window_count.
  destruct (windows_needed (len audio)) as (q & r & -> & D & M).
  unfold chunk_duration in *. lia.
Qed.

(** X11. The transcript returned is the stitched text without the
    whitespace at its two ends: it neither starts nor ends with a
    whitespace character, and only whitespace was cut off. *)
Theorem transcript_is_trimmed (wav_path : str) (audio : bytes)
        (fs : list str) (text : str) :
  read_file wav_path = inr audio ->
  fragments audio = inr fs ->
  fst (transcribe_audio_with_overlap wav_path) = inr text ->
  (exists pre post,
      stitch fs = pre ++ text ++ post /\ is_blank pre /\ is_blank post)
  /\ (forall c rest, text = c :: rest -> isspace c = false)
  /\ (forall rest c, text = rest ++ [c] -> isspace c = false).
Proof.
  intros Hread Hfs.
  rewrite (transcribe_audio_with_overlap_windows _ Hread), Hfs. cbn [fst].
  intros H. inversion H; subst. apply strip_spec.
Qed.

(** X12. A buffer of at least one byte and at most [chunk_duration]
    bytes is submitted whole, in a single call; the transcript is the
    trimmed text of that call, and its failure is the failure of the
    run. *)
Theorem transcribe_single_window (wav_path : str) (audio : bytes) :
  read_file wav_path = inr audio ->
  (0 < len audio <= chunk_duration)%N ->
  transcribe_audio_with_overlap wav_path
  = (match chunk_transcription_of 0 audio with
     | inl e => inl (reraise e)
     | inr f => inr (strip f)
     end, [audio]).
Proof.
  intros Hread Hlen.
  rewrite (transcribe_audio_with_overlap_windows _ Hread).
  assert (Hn : window_count audio = 1).
  { assert (H0 : 0 < window_count audio)
      by (apply window_count_lt; simpl; lia).
    assert (H1 : ~ 1 < window_count audio).
    { rewrite <- window_count_lt. unfold chunk_duration in *. lia. }
    lia. }
  assert (Hw : window audio 0 = audio).
  { rewrite window_positions. apply firstn_all2. simpl skipn.
    unfold len, chunk_duration, overlap_duration in *. lia. }
  unfold fragments, windows. rewrite Hn. cbn [seq map]. rewrite Hw.
  cbn [fragments_from submitted_from].
  destruct (chunk_transcription_of 0 audio) as [e|f]; [reflexivity|].
  unfold stitch. cbn [stitch_after nonempty]. now rewrite app_nil_r.
Qed.

End PipelineMore.

(** Without an empty fragment before the last one, the accumulation
    merges every fragment with the one before it. *)
Lemma stitch_of_nonempty (fs : list str) :
  Forall (fun f => nonempty f = true) (removelast fs) ->
  stitch fs = stitch_all_merged fs.
Proof.
  assert (H : forall fs previous,
             nonempty previous = true ->
             Forall (fun f => nonempty f = true) (removelast fs) ->
             stitch_after previous fs = merged_pairs previous fs).
  { clear fs. induction fs as [|f fs IH]; intros previous Hp Hfs;
      [reflexivity|].
    cbn [stitch_after merged_pairs]. rewrite Hp. f_equal.
    destruct fs as [|g fs]; [reflexivity|].
    inversion Hfs; subst. apply IH; assumption. }
  intros Hfs. destruct fs as [|f fs]; [reflexivity|].
  unfold stitch. cbn [stitch_after stitch_all_merged nonempty]. f_equal.
  destruct fs as [|g fs]; [reflexivity|].
  inversion Hfs; subst. apply H; assumption.
Qed.

(** X13. When every window yields a fragment and none but possibly the
    last is empty, the transcript is the trimmed text of: the first
    fragment, followed by the merge of every later fragment with the raw
    fragment before it. *)
Theorem transcript_of_nonempty_fragments
        (client : SpeechClient) (wav_path : str) (audio : bytes)
        (fs : list str) :
  read_file wav_path = inr audio ->
  fragments audio = inr fs ->
  Forall (fun f => nonempty f = true) (removelast fs) ->
  fst (transcribe_audio_with_overlap wav_path)
  = inr (strip (stitch_all_merged fs)).
Proof.
  intros Hread Hfs Hne.
  rewrite (transcribe_audio_with_overlap_windows _ Hread), Hfs.
  cbn [fst]. now rewrite stitch_of_nonempty.
Qed.

(** *** The pipeline on concrete services *)

Lemma transcribe_unreadable_witness :
  @transcribe_audio_with_overlap Fixtures.missing_file (py "answer.wav")
  = (inl (Exn RuntimeError
              (py "Error during audio transcription: [Errno 2] No such file or directory")),
     []).
Proof.
  exact (proj1 (@transcribe_unreadable Fixtures.missing_file
                  (py "answer.wav") Fixtures.no_such_file eq_refl)).
Defined.

Lemma chunk_text_uses_best_witness :
  @chunk_transcription_of
    (answering [x00] [ranked [[py "hello"; py "hallo"]; [py "world"; py "whirled"]]])
    0 [x00]
  = inr (py "hello world").
Proof.
  exact (@chunk_text_uses_best
           (answering [x00] [ranked [[py "hello"; py "hallo"]; [py "world"; py "whirled"]]])
           0 [x00] (ranked [[py "hello"; py "hallo"]; [py "world"; py "whirled"]])
           [py "hello"; py "world"] eq_refl eq_refl).
Defined.

Lemma transcribe_no_alternative_witness :
  @transcribe_audio_with_overlap
    (answering [x00] [ranked [[py "hello"]; []]]) (py "answer.wav")
  = (inl (Exn RuntimeError
              (py "Error during audio transcription: list index out of range")),
     [[x00]]).
Proof.
  refine (@transcribe_no_alternative
            (answering [x00] [ranked [[py "hello"]; []]]) (py "answer.wav")
            [x00] 0 (ranked [[py "hello"]; []]) eq_refl _ _ eq_refl _).
  - vm_compute. lia.
  - intros j Hj. lia.
  - right. left. reflexivity.
Defined.

Lemma transcribe_call_count_witness :
  (2 <= N.of_nat
          (length (snd (@transcribe_audio_with_overlap
                          (scripted_speech [x00; x01] [inr (py "hi")])
                          (py "answer.wav"))))
        * chunk_duration)%N
  /\ (N.of_nat
        (length (snd (@transcribe_audio_with_overlap
                        (scripted_speech [x00; x01] [inr (py "hi")])
                        (py "answer.wav"))))
      * chunk_duration < 2 + chunk_duration)%N.
Proof.
  exact (@transcribe_call_count
           (scripted_speech [x00; x01] [inr (py "hi")]) (py "answer.wav")
           [x00; x01] (py "hi") eq_refl eq_refl).
Defined.

Lemma transcript_is_trimmed_witness :
  (exists pre post,
      py "  hi there " = pre ++ py "hi there" ++ post
      /\ is_blank pre /\ is_blank post)
  /\ (forall c rest, py "hi there" = c :: rest -> isspace c = false)
  /\ (forall rest c, py "hi there" = rest ++ [c] -> isspace c = false).
Proof.
  exact (@transcript_is_trimmed
           (scripted_speech [x00; x01] [inr (py "  hi there ")])
           (py "answer.wav") [x00; x01] [py "  hi there "] (py "hi there")
           eq_refl eq_refl eq_refl).
Defined.

Lemma transcribe_single_window_witness :
  @transcribe_audio_with_overlap
    (scripted_speech [x00; x01] [inr (py " hi there")]) (py "answer.wav")
  = (inr (py "hi there"), [[x00; x01]]).
Proof.
  refine (@transcribe_single_window
            (scripted_speech [x00; x01] [inr (py " hi there")])
            (py "answer.wav") [x00; x01] eq_refl _).
  vm_compute. split; [reflexivity | discriminate].
Defined.

Lemma transcript_of_nonempty_fragments_witness :
  fst (@transcribe_audio_with_overlap
         (scripted_speech (silence 320000)
                          [inr (py "hello ther"); inr (py "there world")])
         (py "answer.wav"))
  = inr (py "hello therhello there world").
Proof.
  refine (@transcript_of_nonempty_fragments
            (scripted_speech (silence 320000)
                             [inr (py "hello ther"); inr (py "there world")])
            (py "answer.wav") (silence 320000)
            [py "hello ther"; py "there world"] eq_refl _ _).
  - unfold fragments, windows, window_count. rewrite len_silence.
    reflexivity.
  - repeat constructor.
Defined.

(** ** The handlers, beyond the claims *)

Section HandlersMore.
Context {ext : Collaborators} {interviewer : Interviewer}.

#[local] Existing Instance speech_client.

(** X14. With an interview handle present, an answer is stored in the
    pending-answer slot, whatever its [code] field holds (a missing field
    is stored as [None]), and the answer-ready signal is set. A second
    answer before the first is consumed replaces it: the last one
    wins. *)
Theorem answer_with_interview (first second : EventData) (w : World)
        (bot : InterviewBot) :
  interview_bot (state w) = Some bot ->
  handle_answer first w
  = (inr tt,
     set_state
       (set_interview_bot
          (Some (set_answer_event true
                   (set_current_answer (code first) bot)))
          (state w))
       w)
  /\ interview_bot
       (state (snd (handle_answer second (snd (handle_answer first w)))))
     = Some (set_answer_event true (set_current_answer (code second) bot))
  /\ websocket (snd (handle_answer second (snd (handle_answer first w))))
     = websocket w.
Proof.
  intros Hbot.
  unfold handle_answer, bind, get_state, update_bot.
  rewrite Hbot.
  cbn [fst snd state set_state interview_bot set_interview_bot].
  rewrite Hbot.
  cbn [fst snd state set_state interview_bot set_interview_bot].
  repeat split.
Qed.

(** X15. A message whose type is none of the ten the dispatcher knows
    is ignored: nothing is sent, nothing changes, nothing is raised. *)
Theorem unknown_type_ignored (event : EventData) (w : World) :
  ~ In (type event)
       [py "upload_cv"; py "analyze_jd"; py "start_interview"; py "answer";
        py "coding"; py "end_interview"; py "get_analysis";
        py "get_summary_analysis"; py "test_coding_question"; py "audio"] ->
  handle_event event w = (inr tt, w).
Proof.
  intros Hnot. unfold handle_event.
  repeat match goal with
         | |- context [eqb (type event) ?t] =>
             rewrite (@eqb_neq (type event) t)
               by (intros Heq; apply Hnot; rewrite Heq; simpl; tauto)
         end.
  reflexivity.
Qed.


(** X17. The analysis queries only read the session: whatever happens,
    the state after is the state before. The analyzer is given the
    results mapping; its answer is sent back, and its failure leaves the
    handler as it is, with nothing sent. *)
Theorem analysis_is_read_only (w : World) :
  state (snd (handle_get_analysis w)) = state w
  /\ state (snd (handle_summary_analysis w)) = state w
  /\ (forall e,
        analyze_results (results (state w)) = inl e ->
        handle_get_analysis w = (inl e, w))
  /\ (forall e,
        summary_results (results (state w)) = inl e ->
        handle_summary_analysis w = (inl e, w))
  /\ (forall result ws',
        analyze_results (results (state w)) = inr result ->
        send_json (VDict [(py "type", VStr (py "analysis"));
                          (py "result", result)]) (websocket w)
        = (inr tt, ws') ->
        handle_get_analysis w = (inr tt, set_websocket ws' w))
  /\ (forall summary ws',
        summary_results (results (state w)) = inr summary ->
        send_json (VDict [(py "type", VStr (py "summary_analysis"));
                          (py "result", summary)]) (websocket w)
        = (inr tt, ws') ->
        handle_summary_analysis w = (inr tt, set_websocket ws' w)).
Proof.
  unfold handle_get_analysis, handle_summary_analysis, bind, get_state, call,
    await_send_json, on_websocket.
  repeat split; intros.
  - destruct (analyze_results _) as [e|r]; [reflexivity|].
    now destruct (send_json _ _) as [[?|[]] ?].
  - destruct (summary_results _) as [e|r]; [reflexivity|].
    now destruct (send_json _ _) as [[?|[]] ?].
  - now rewrite H.
  - now rewrite H.
  - now rewrite H, H0.
  - now rewrite H, H0.
Qed.

(** X18. Without an interview handle, a [coding] message and an
    [end_interview] message are dropped like an answer: the evaluator's
    outcome is not sent, nothing else is, and the session is unchanged.
    The client gets no reply at all. *)
Theorem no_interview_no_reply (event : EventData) (w : World) :
  interview_bot (state w) = None ->
  handle_coding event w = (inr tt, w)
  /\ handle_end_interview w = (inr tt, w).
Proof.
  intros Hbot.
  unfold handle_coding, handle_end_interview, try_except, bind, get_state.
  rewrite Hbot. split; reflexivity.
Qed.

(** X19. When the evaluator's outcome is truthy but not a dict (a
    string, a number, a list, [True]), the client first receives it as
    [code_evaluation] and then a [coding_error] whose message is
    Python's "'<type>' object has no attribute 'get'": reading the
    verdict raises. The code-ready signal is not set. *)
Theorem coding_outcome_not_a_dict (event : EventData) (w : World)
        (bot : InterviewBot) (response : val) (ws1 ws2 : WS) :
  interview_bot (state w) = Some bot ->
  evaluate_code (llm bot) (ques event) (code event) = inr response ->
  truthy response = true ->
  (forall items, response <> VDict items) ->
  send_json (code_evaluation_reply response) (websocket w) = (inr tt, ws1) ->
  send_json (VDict [(py "type", VStr (py "coding_error"));
                    (py "message",
                     VStr (py "'" ++ type_name response
                           ++ py "' object has no attribute 'get'"))])
            ws1
  = (inr tt, ws2) ->
  handle_coding event w = (inr tt, set_websocket ws2 w).
Proof.
  intros Hbot Heval Htruthy Hnot Hsend1 Hsend2.
  rewrite (handle_coding_replied _ _ Hbot Heval Hsend1), Htruthy.
  unfold await_send_json, on_websocket.
  destruct response; try (exfalso; eapply Hnot; reflexivity);
    cbn [get type_name is_Exception exn_cls no_attribute websocket
         set_websocket] in *;
    match goal with
    | |- context [send_json ?m ws1] =>
        match type of Hsend2 with
        | send_json ?m' ws1 = _ => change m with m'
        end
    end;
    rewrite Hsend2; reflexivity.
Qed.


(** X21. Once a non-empty transcript is out as [transcription_complete],
    an audio message is handled like an answer carrying the transcript:
    stored and signalled when a handle exists, dropped when none does. *)
Theorem audio_is_an_answer (event answer : EventData) (w : World)
        (wav_path transcription : str) (ws' : WS) :
  audio_data event = Some wav_path ->
  wav_path <> [] ->
  fst (transcribe_audio_with_overlap wav_path) = inr transcription ->
  transcription <> [] ->
  send_json (transcription_complete_reply transcription) (websocket w)
  = (inr tt, ws') ->
  code answer = Some transcription ->
  handle_audio_transcription event w
  = handle_answer answer (set_websocket ws' w).
Proof.
  intros Hdata Hpath Hrun Hne Hsend Hcode.
  unfold handle_audio_transcription, handle_answer, try_except, bind,
    get_state, call, await_send_json, on_websocket, ret, update_bot.
  destruct wav_path as [|c wav_path]; [congruence|].
  rewrite Hdata, Hrun, Hcode.
  change (VDict [(py "type", VStr (py "transcription_complete")); _])
    with (transcription_complete_reply transcription).
  rewrite Hsend.
  destruct transcription as [|t transcription]; [congruence|].
  cbn [nonempty state set_websocket].
  destruct (interview_bot (state w)) as [bot|] eqn:Hbot; [|reflexivity].
  cbn [state set_state set_websocket interview_bot set_interview_bot].
  rewrite Hbot. reflexivity.
Qed.

End HandlersMore.

(** ** What a turn of the loop leaves alone *)

Section Frame.
Context {ext : Collaborators} {interviewer : Interviewer}.

#[local] Existing Instance speech_client.

(** A relation between the world before and the world after that every
    step of a handler respects. *)
Variable R : World -> World -> Prop.

Hypothesis R_refl : forall w, R w w.
Hypothesis R_trans : forall a b c, R a b -> R b c -> R a c.
Hypothesis R_socket : forall w ws, R w (set_websocket ws w).
Hypothesis R_cv_text :
  forall w text, R w (set_state (set_cv_text text (state w)) w).
Hypothesis R_job_description :
  forall w text, R w (set_state (set_job_description text (state w)) w).
Hypothesis R_bot :
  forall w bot bot',
    interview_bot (state w) = Some bot ->
    R w (set_state (set_interview_bot (Some bot') (state w)) w).
Hypothesis R_start :
  forall w bot,
    interview_bot (state w) = None ->
    R w {| state := set_interview_bot (Some bot) (state w);
           websocket := websocket w;
           tasks_created := S (tasks_created w) |}.
Hypothesis R_release :
  forall w, R w (set_state (set_interview_bot None (state w)) w).
Hypothesis R_task :
  forall w bot bot' results' ws',
    interview_bot (state w) = Some bot ->
    R w {| state := set_interview_bot bot' (set_results results' (state w));
           websocket := ws';
           tasks_created := tasks_created w |}.

Local Notation "'kept' c" := (forall w, R w (snd (c w)))
  (at level 10, c at level 9).

Lemma kept_ret (A : Type) (a : A) : kept (ret a).
Proof. intros w. apply R_refl. Qed.

Lemma kept_call (A : Type) (r : exn + A) : kept (call r).
Proof. intros w. apply R_refl. Qed.

Lemma kept_bind (A B : Type) (c : M A) (k : A -> M B) :
  kept c -> (forall a, kept (k a)) -> kept (bind c k).
Proof.
  intros Hc Hk w. unfold bind. specialize (Hc w).
  destruct (c w) as [[e|a] w1]; cbn [snd] in *; [exact Hc|].
  eapply R_trans; [exact Hc | apply Hk].
Qed.

Lemma kept_try_except (A : Type) (body : M A) (caught : exn -> bool)
      (handler : exn -> M A) :
  kept body -> (forall e, kept (handler e)) ->
  kept (try_except body caught handler).
Proof.
  intros Hb Hh w. unfold try_except. specialize (Hb w).
  destruct (body w) as [[e|a] w1]; cbn [snd] in *; [|exact Hb].
  destruct (caught e); [|exact Hb].
  eapply R_trans; [exact Hb | apply Hh].
Qed.

Lemma kept_on_websocket (A : Type) (op : WS -> (exn + A) * WS) :
  kept (on_websocket op).
Proof.
  intros w. unfold on_websocket.
  destruct (op (websocket w)) as [r ws']. apply R_socket.
Qed.

Lemma kept_update_bot (attribute : string)
      (f : InterviewBot -> InterviewBot) :
  kept (update_bot attribute f).
Proof.
  intros w. unfold update_bot.
  destruct (interview_bot (state w)) as [bot|] eqn:Hbot; cbn [snd].
  - eapply R_bot. exact Hbot.
  - apply R_refl.
Qed.

Ltac keep :=
  repeat first
    [ apply kept_bind; [|intros ?]
    | apply kept_try_except; [|intros ?]
    | apply kept_on_websocket
    | apply kept_update_bot
    | apply kept_ret
    | apply kept_call
    | match goal with
      | |- forall w, R w (snd ((match ?x with _ => _ end) w)) => destruct x
      | |- forall w, R w (snd ((if ?x then _ else _) w)) => destruct x
      end ].

Lemma kept_handle_answer (event : EventData) : kept (handle_answer event).
Proof.
  unfold handle_answer. apply kept_bind; [intros w; apply R_refl|].
  intros st. keep.
Qed.

Lemma kept_handle_coding (event : EventData) : kept (handle_coding event).
Proof.
  unfold handle_coding, await_send_json.
  apply kept_try_except; [|intros e; keep].
  apply kept_bind; [intros w; apply R_refl|]. intros st. keep.
Qed.

(** The launched task, while the connection handler sleeps. *)
Lemma kept_handle_interview : kept handle_interview.
Proof.
  intros w. unfold handle_interview.
  destruct (interview_bot (state w)) as [bot|] eqn:Hbot; [|apply R_refl].
  destruct (conduct_interview _ _ _) as [[p results'] ws']. cbn [snd].
  eapply R_task. exact Hbot.
Qed.

Lemma kept_handle_end_interview : kept handle_end_interview.
Proof.
  unfold handle_end_interview, await_send_json, await_sleep.
  apply kept_bind; [intros w; apply R_refl|]. intros st.
  destruct (interview_bot st); [|apply kept_ret].
  apply kept_bind; [apply kept_update_bot|]. intros _.
  apply kept_bind; [apply kept_handle_interview|]. intros _.
  keep.
Qed.

Lemma kept_handle_get_analysis : kept handle_get_analysis.
Proof.
  unfold handle_get_analysis, await_send_json.
  apply kept_bind; [intros w; apply R_refl|]. intros st. keep.
Qed.

Lemma kept_handle_summary_analysis : kept handle_summary_analysis.
Proof.
  unfold handle_summary_analysis, await_send_json.
  apply kept_bind; [intros w; apply R_refl|]. intros st. keep.
Qed.

Lemma kept_handle_test_coding_question : kept handle_test_coding_question.
Proof. unfold handle_test_coding_question, await_send_json. keep. Qed.

Lemma kept_handle_audio_transcription (event : EventData) :
  kept (handle_audio_transcription event).
Proof.
  unfold handle_audio_transcription, await_send_json.
  apply kept_try_except; [|intros e; keep].
  destruct (audio_data event) as [[|c wav_path]|]; keep.
  intros w; apply R_refl.
Qed.

Lemma kept_handle_upload_cv : kept handle_upload_cv.
Proof.
  unfold handle_upload_cv, await_receive_json, await_send_json. keep.
  intros w. apply R_cv_text.
Qed.

Lemma kept_handle_analyze_jd : kept handle_analyze_jd.
Proof.
  unfold handle_analyze_jd, await_receive_json, await_send_json. keep.
  intros w. apply R_job_description.
Qed.


(** Every handler but [handle_start_interview]. *)
Lemma kept_handle_event_not_start (event : EventData) :
  type event <> py "start_interview" -> kept (handle_event event).
Proof.
  intros Hnot. unfold handle_event.
  rewrite (eqb_neq Hnot).
  repeat match goal with
         | |- context [if ?b then _ else _] => destruct b
         end;
    auto using kept_handle_upload_cv, kept_handle_analyze_jd,
      kept_handle_answer, kept_handle_coding, kept_handle_end_interview,
      kept_handle_get_analysis, kept_handle_summary_analysis,
      kept_handle_test_coding_question, kept_handle_audio_transcription,
      kept_ret.
Qed.





End Frame.

Section LoopMore.
Context {ext : Collaborators} {interviewer : Interviewer}.

#[local] Existing Instance speech_client.


(** X23. Only [start_interview] launches a task or fills the handle
    slot: handling any other message leaves the number of launched tasks
    as it is and an empty slot empty. *)
Theorem only_start_creates_handle (event : EventData) (w : World) :
  type event <> py "start_interview" ->
  tasks_created (snd (handle_event event w)) = tasks_created w
  /\ (interview_bot (state w) = None ->
      interview_bot (state (snd (handle_event event w))) = None).
Proof.
  intros Hnot.
  pose (R := fun a b : World =>
               tasks_created b = tasks_created a
               /\ (interview_bot (state a) = None ->
                   interview_bot (state b) = None)).
  apply (@kept_handle_event_not_start ext interviewer R); unfold R; cbn;
    intros; try exact Hnot; try (intuition congruence).
Qed.

Lemma handle_event_launches (event : EventData) (w : World) :
  tasks_created w <= tasks_created (snd (handle_event event w))
                  <= S (tasks_created w).
Proof.
  destruct (eqb (type event) (py "start_interview")) eqn:E.
  - apply eqb_eq in E. rewrite (handle_event_start_interview _ E).
    unfold handle_start_interview, bind, get_state, update_state,
      create_task, await_send_json, on_websocket.
    destruct (interview_bot (state w)); [cbn; lia|].
    cbn [state websocket tasks_created set_state set_websocket].
    destruct (send_json _ _) as [[e|[]] ws']; cbn; lia.
  - assert (Hnot : type event <> py "start_interview").
    { intros H. apply eqb_eq in H. congruence. }
    pose (R := fun a b : World => tasks_created b = tasks_created a).
    assert (H : R w (snd (handle_event event w))).
    { apply (@kept_handle_event_not_start ext interviewer R); unfold R; cbn;
        intros; try exact Hnot; congruence. }
    unfold R in H. lia.
Qed.

(** X24. One turn of the loop launches at most one interview task, and
    the count of launched tasks never goes down. *)
Theorem turn_launches_at_most_one (w : World) :
  tasks_created w <= tasks_created (snd (receive_and_handle w))
                  <= S (tasks_created w).
Proof.
  unfold receive_and_handle, try_except, bind, await_receive_json,
    await_send_json, on_websocket, call.
  destruct (receive_json (websocket w)) as [[e|data] ws1].
  - destruct (is_ValidationError e); [|cbn; lia].
    cbn [websocket set_websocket].
    destruct (send_json _ ws1) as [r ws2]. cbn. lia.
  - destruct (validate data) as [e|event].
    + destruct (is_ValidationError e); [|cbn; lia].
      cbn [websocket set_websocket].
      destruct (send_json _ ws1) as [r ws2]. cbn. lia.
    + pose proof (handle_event_launches event (set_websocket ws1 w)) as H.
      cbn [tasks_created set_websocket] in H.
      destruct (handle_event event (set_websocket ws1 w)) as [[e|[]] w2];
        cbn [snd] in H.
      * destruct (is_ValidationError e); [|cbn; lia].
        destruct (send_json _ (websocket w2)) as [r ws2]. cbn. lia.
      * cbn. lia.
Qed.

(** X25. However the loop ends, the endpoint leaves no interview handle
    behind, and it returns normally unless the exception that ended the
    loop is not an [Exception]. *)
Theorem endpoint_releases_handle (fuel : nat) (ws : WS)
        (outcome : exn + unit) (w : World) :
  websocket_endpoint fuel ws = Some (outcome, w) ->
  interview_bot (state w) = None
  /\ (outcome = inr tt
      \/ exists e, outcome = inl e /\ is_Exception e = false).
Proof.
  unfold websocket_endpoint.
  destruct (message_loop fuel _) as [[e w1]|]; [|discriminate].
  intros H. inversion H; subst. split.
  - unfold release_interview, bind, get_state, update_bot, update_state.
    destruct (interview_bot (state w1)) as [bot|] eqn:Hbot.
    + cbn [state set_state interview_bot set_interview_bot].
      rewrite Hbot. reflexivity.
    + cbn [snd]. exact Hbot.
  - destruct (is_WebSocketDisconnect e); [left; reflexivity|].
    cbn [orb]. destruct (is_Exception e) eqn:E; [left; reflexivity|].
    right. exists e. split; [reflexivity | exact E].
Qed.

(** X26. When the peer is gone, or anything but a [ValidationError]
    comes out of receiving, the turn ends the loop without a reply; if
    this is the first turn, the endpoint returns with the fresh session
    and no task launched. *)
Theorem receive_failure_ends_loop (fuel : nat) (ws ws1 : WS) (e : exn) :
  receive_json ws = (inl e, ws1) ->
  is_ValidationError e = false ->
  websocket_endpoint (S fuel) ws
  = Some (if is_WebSocketDisconnect e || is_Exception e
          then inr tt else inl e,
          {| state := new_InterviewState; websocket := ws1;
             tasks_created := 0 |}).
Proof.
  intros Hrecv He.
  unfold websocket_endpoint. cbn [message_loop].
  unfold receive_and_handle, try_except, bind, await_receive_json,
    on_websocket.
  cbn [websocket]. rewrite Hrecv, He. reflexivity.
Qed.

End LoopMore.

(** *** More handlers on concrete connections *)

Lemma answer_with_interview_witness :
  option_map (@current_answer accepting)
    (interview_bot
       (state (snd (handle_answer
                      (event_of "answer" (Some (py "43")) None None)
                      (snd (handle_answer
                              (event_of "answer" (Some (py "42")) None None)
                              (interviewing accepting (wire [] []))))))))
  = Some (Some (py "43")).
Proof.
  rewrite (proj1 (proj2 (@answer_with_interview accepting
             (event_of "answer" (Some (py "42")) None None)
             (event_of "answer" (Some (py "43")) None None)
             (interviewing accepting (wire [] []))
             (new_InterviewBot [] [] VNone) eq_refl))).
  reflexivity.
Defined.

Lemma unknown_type_ignored_witness :
  handle_event (event_of "ping" None None None)
               (interviewing accepting (wire [] []))
  = (inr tt, interviewing accepting (wire [] [])).
Proof.
  apply unknown_type_ignored. simpl. intuition discriminate.
Defined.


Lemma analysis_is_read_only_witness :
  handle_get_analysis (interviewing failing (wire [] []))
  = (inl timeout, interviewing failing (wire [] []))
  /\ handle_get_analysis (interviewing accepting (wire [] []))
     = (inr tt,
        interviewing accepting
          (wire [] [VDict [(py "type", VStr (py "analysis"));
                           (py "result", VNone)]])).
Proof.
  split.
  - exact (proj1 (proj2 (proj2 (@analysis_is_read_only failing
             (interviewing failing (wire [] []))))) timeout eq_refl).
  - exact (proj1 (proj2 (proj2 (proj2 (proj2 (@analysis_is_read_only accepting
             (interviewing accepting (wire [] []))))))) VNone
             (wire [] [VDict [(py "type", VStr (py "analysis"));
                              (py "result", VNone)]])
             eq_refl eq_refl).
Defined.

Lemma no_interview_no_reply_witness :
  handle_coding (event_of "coding" (Some (py "print(1)")) None None)
                (connection accepting (wire [] []))
  = (inr tt, connection accepting (wire [] []))
  /\ handle_end_interview (connection accepting (wire [] []))
     = (inr tt, connection accepting (wire [] [])).
Proof.
  exact (@no_interview_no_reply accepting _
           (event_of "coding" (Some (py "print(1)")) None None)
           (connection accepting (wire [] [])) eq_refl).
Defined.

Lemma coding_outcome_not_a_dict_witness :
  handle_coding (event_of "coding" (Some (py "print(1)")) None None)
                (interviewing chatty (wire [] []))
  = (inr tt,
     interviewing chatty
       (wire [] [code_evaluation_reply (VStr (py "looks fine"));
                 VDict [(py "type", VStr (py "coding_error"));
                        (py "message",
                         VStr (py "'str' object has no attribute 'get'"))]])).
Proof.
  refine (@coding_outcome_not_a_dict chatty
            (event_of "coding" (Some (py "print(1)")) None None)
            (interviewing chatty (wire [] []))
            (new_InterviewBot [] [] VNone) (VStr (py "looks fine"))
            (wire [] [code_evaluation_reply (VStr (py "looks fine"))])
            (wire [] [code_evaluation_reply (VStr (py "looks fine"));
                      VDict [(py "type", VStr (py "coding_error"));
                             (py "message",
                              VStr (py "'str' object has no attribute 'get'"))]])
            eq_refl eq_refl eq_refl _ eq_refl eq_refl).
  intros items. discriminate.
Defined.


Lemma audio_is_an_answer_witness :
  handle_audio_transcription
    (event_of "audio" None None (Some (py "answer.wav")))
    (interviewing listening (wire [] []))
  = handle_answer
      (event_of "answer" (Some (py "forty two")) None None)
      (interviewing listening
         (wire [] [transcription_complete_reply (py "forty two")])).
Proof.
  refine (@audio_is_an_answer listening
            (event_of "audio" None None (Some (py "answer.wav")))
            (event_of "answer" (Some (py "forty two")) None None)
            (interviewing listening (wire [] []))
            (py "answer.wav") (py "forty two")
            (wire [] [transcription_complete_reply (py "forty two")])
            eq_refl _ eq_refl _ eq_refl eq_refl); discriminate.
Defined.


Lemma only_start_creates_handle_witness :
  tasks_created
    (snd (handle_event (event_of "coding" (Some (py "print(1)")) None None)
                       (connection accepting (wire [] []))))
  = 0
  /\ (interview_bot (state (connection accepting (wire [] []))) = None ->
      interview_bot
        (state (snd (handle_event
                       (event_of "coding" (Some (py "print(1)")) None None)
                       (connection accepting (wire [] [])))))
      = None).
Proof.
  refine (@only_start_creates_handle accepting _
            (event_of "coding" (Some (py "print(1)")) None None)
            (connection accepting (wire [] [])) _).
  discriminate.
Defined.

Lemma endpoint_releases_handle_witness :
  interview_bot
    (state (session accepting new_InterviewState
                    (wire [] [interview_started_reply]) 1))
  = None.
Proof.
  exact (proj1 (@endpoint_releases_handle accepting _ 3
                  (wire [message "start_interview" []] [])
                  (inr tt)
                  (session accepting new_InterviewState
                           (wire [] [interview_started_reply]) 1)
                  eq_refl)).
Defined.

Lemma receive_failure_ends_loop_witness :
  websocket_endpoint (ext := accepting) 1 (wire [] [])
  = Some (inr tt, connection accepting (wire [] [])).
Proof.
  exact (@receive_failure_ends_loop accepting _ 0 (wire [] []) (wire [] [])
           (Exn WebSocketDisconnect (py "1000")) eq_refl eq_refl).
Defined.

(** ** Replies that cannot be sent *)

Section RepliesMore.
Context {ext : Collaborators} {interviewer : Interviewer}.

(** X27. The handle is constructed and the task launched before the
    client is told: when [interview_started] cannot be sent, the
    exception leaves the handler with the handle in place and the task
    counted. *)
Theorem start_interview_reply_fails (w : World) (e : exn) (ws' : WS) :
  interview_bot (state w) = None ->
  send_json interview_started_reply (websocket w) = (inl e, ws') ->
  handle_start_interview w
  = (inl e,
     {| state := set_interview_bot
                   (Some (new_InterviewBot (cv_text (state w))
                                           (job_description (state w))
                                           (results (state w))))
                   (state w);
        websocket := ws';
        tasks_created := S (tasks_created w) |}).
Proof.
  intros Hbot Hsend.
  unfold handle_start_interview, bind, get_state, update_state, create_task,
    await_send_json, on_websocket.
  rewrite Hbot. cbn [state websocket tasks_created set_state set_websocket].
  change (VDict _) with interview_started_reply. rewrite Hsend. reflexivity.
Qed.

(** X28. The verdict is looked at only after the evaluation has been
    sent: when that send raises an [Exception], the handler goes on to
    report it as a [coding_error], and the code-ready signal is left as
    it was whatever the verdict. *)
Theorem coding_reply_fails (event : EventData) (w : World)
        (bot : InterviewBot) (response : val) (e : exn) (ws1 : WS) :
  interview_bot (state w) = Some bot ->
  evaluate_code (llm bot) (ques event) (code event) = inr response ->
  send_json (code_evaluation_reply response) (websocket w) = (inl e, ws1) ->
  is_Exception e = true ->
  handle_coding event w
  = await_send_json (error_reply "coding_error" e) (set_websocket ws1 w)
  /\ state (snd (handle_coding event w)) = state w.
Proof.
  intros Hbot Heval Hsend He.
  assert (H : handle_coding event w
              = await_send_json (error_reply "coding_error" e)
                                (set_websocket ws1 w)).
  { unfold handle_coding, try_except, bind, get_state, call.
    rewrite Hbot, Heval.
    unfold await_send_json at 1. unfold on_websocket at 1.
    change (VDict [(py "type", VStr (py "code_evaluation")); _])
      with (code_evaluation_reply response).
    rewrite Hsend, He. reflexivity. }
  split; [exact H|]. rewrite H.
  unfold await_send_json, on_websocket.
  destruct (send_json (error_reply "coding_error" e) _) as [r ws2].
  reflexivity.
Qed.

End RepliesMore.

Lemma start_interview_reply_fails_witness :
  handle_start_interview (connection muted (wire [] []))
  = (inl closed_for_sending, interviewing muted (wire [] [])).
Proof.
  exact (@start_interview_reply_fails muted (connection muted (wire [] []))
           closed_for_sending (wire [] []) eq_refl eq_refl).
Defined.

Lemma coding_reply_fails_witness :
  handle_coding (event_of "coding" (Some (py "print(1)")) None None)
                (interviewing muted (wire [] []))
  = (inl closed_for_sending, interviewing muted (wire [] []))
  /\ state (snd (handle_coding
                   (event_of "coding" (Some (py "print(1)")) None None)
                   (interviewing muted (wire [] []))))
     = state (interviewing muted (wire [] [])).
Proof.
  exact (@coding_reply_fails muted
           (event_of "coding" (Some (py "print(1)")) None None)
           (interviewing muted (wire [] []))
           (new_InterviewBot [] [] VNone) verdict_pass closed_for_sending
           (wire [] []) eq_refl eq_refl eq_refl eq_refl).
Defined.

(** ** Ending an interview *)

Section EndInterview.
Context {ext : Collaborators} {interviewer : Interviewer}.


(** X30. When the interview is still suspended after the sleep, the
    stop signal the handler had set is cleared again on the handle as the
    task left it, and [interview_end] is sent. *)
Theorem end_interview_while_the_task_waits (w : World)
        (bot bot' : InterviewBot) (results' : val) (ws' ws'' : WS) :
  interview_bot (state w) = Some bot ->
  conduct_interview (set_stop_interview true bot) (results (state w))
                    (websocket w)
  = (Suspended bot', results', ws') ->
  send_json (VDict [(py "type", VStr (py "interview_end"));
                    (py "message", VStr (py "Interview ended"))]) ws'
  = (inr tt, ws'') ->
  handle_end_interview w
  = (inr tt,
     {| state := set_interview_bot (Some (set_stop_interview false bot'))
                                   (set_results results' (state w));
        websocket := ws'';
        tasks_created := tasks_created w |}).
Proof.
  intros Hbot Hrun Hsend.
  unfold handle_end_interview, bind, get_state, update_bot, await_sleep,
    handle_interview, await_send_json, on_websocket.
  rewrite Hbot.
  cbn [state websocket tasks_created set_state interview_bot
       set_interview_bot results].
  rewrite Hbot.
  cbn [state websocket tasks_created set_state interview_bot
       set_interview_bot results].
  rewrite Hrun.
  cbn [state websocket tasks_created set_state interview_bot
       set_interview_bot results set_results].
  rewrite Hsend. reflexivity.
Qed.

End EndInterview.


Lemma end_interview_while_the_task_waits_witness :
  handle_end_interview (interviewing accepting (wire [] []))
  = (inr tt,
     interviewing accepting
       (wire [] [VDict [(py "type", VStr (py "interview_end"));
                        (py "message", VStr (py "Interview ended"))]])).
Proof.
  exact (@end_interview_while_the_task_waits accepting _
           (interviewing accepting (wire [] []))
           (new_InterviewBot [] [] VNone)
           (set_stop_interview true (new_InterviewBot [] [] VNone))
           (results (state (interviewing accepting (wire [] []))))
           (wire [] [])
           (wire [] [VDict [(py "type", VStr (py "interview_end"));
                            (py "message", VStr (py "Interview ended"))]])
           eq_refl eq_refl eq_refl).
Defined.
